(** * Event-triggered, middleware-wrapped step execution (hatchet example
    [examples/middleware] and the custom OAuth callback handler).

    The example program [src/unnamed/part_000] registers two process-wide
    middlewares, one service middleware and a two-step workflow job, then
    pushes one event.  The worker runtime ([pkg/worker]: middleware chain,
    step sequencing, dispatch, lifecycle) is not part of the sources at hand;
    the definitions that stand for it say so in their doc comments and follow
    the design document. *)

From Stdlib Require Import String List Bool Arith Lia.
Import ListNotations.
Open Scope string_scope.
Open Scope list_scope.

(** ** Results and the trace monad *)

(** Outcome of a Go call: a value, a returned [error], or a panic that unwinds
    the goroutine. *)
Inductive res (A : Type) : Type :=
| Ok (a : A)
| Err (e : string)
| Panic (msg : string).
Arguments Ok {A} a.
Arguments Err {A} e.
Arguments Panic {A} msg.

(** A computation that appends to an observation log of type [O]. *)
Definition WR (O A : Type) : Type := (list O * res A)%type.

Definition ret {O A} (a : A) : WR O A := ([], Ok a).

Definition tell {O} (l : list O) : WR O unit := (l, Ok tt).

Definition bind {O A B} (m : WR O A) (f : A -> WR O B) : WR O B :=
  match m with
  | (l, Ok a) => let (l2, r) := f a in (l ++ l2, r)
  | (l, Err e) => (l, Err e)
  | (l, Panic p) => (l, Panic p)
  end.

Notation "x <- m ;; f" := (bind m (fun x => f))
  (at level 61, m at next level, right associativity).
Notation "m ;;; f" := (bind m (fun _ => f))
  (at level 61, right associativity).

(** User code (middleware bodies, step handlers) only sends strings on the
    [events] channel: [events <- s]. *)
Definition UM (A : Type) : Type := WR string A.

Definition send (s : string) : UM unit := tell [s].

(** ** context.Context *)

(** Values stored with [context.WithValue] are [interface{}]; the example
    stores strings only, anything else is [IOther]. *)
Inductive iface : Type :=
| IString (s : string)
| IOther.

(** A context is the chain of [WithValue] layers, innermost first. *)
Definition Ctx : Type := list (string * iface).

Definition WithValue (ctx : Ctx) (k : string) (v : iface) : Ctx := (k, v) :: ctx.

(** [ctx.Value(k)]: the innermost binding of [k], [None] for Go's [nil]. *)
Fixpoint Value (ctx : Ctx) (k : string) : option iface :=
  match ctx with
  | [] => None
  | (k', v) :: rest => if String.eqb k k' then Some v else Value rest k
  end.

(** The unchecked type assertion [x.(string)]: panics on [nil] or on a
    non-string dynamic type. *)
Definition assertString (x : option iface) : UM string :=
  match x with
  | Some (IString s) => ret s
  | _ => ([], Panic "interface conversion: interface {} is not string")
  end.

(** ** Payloads *)

Record userCreateEvent : Type := mkUserCreateEvent {
  Username : string;
  UserID : string;
  Data : list (string * string)
}.

Record stepOneOutput : Type := mkStepOneOutput { Message : string }.

(** The JSON values handed from the event to the first step and from step to
    step. *)
Inductive Payload : Type :=
| PUserCreate (u : userCreateEvent)
| PStepOne (o : stepOneOutput).

(** ** Observations of a run *)

(** The execution trace of a run: channel sends of user code, entry into the
    [i]-th middleware of the composed chain with the context it receives,
    entry into the terminal operation, and the input and output of each step. *)
Inductive Obs : Type :=
| Ev (s : string)
| Enter (i : nat) (ctx : Ctx)
| TermRun
| StepIn (name : string) (ctx : Ctx) (input : Payload)
| StepOut (name : string) (output : Payload).

Definition RM (A : Type) : Type := WR Obs A.

(** User code runs inside the runtime; its channel sends become [Ev]. *)
Definition lift {A} (m : UM A) : RM A := (map Ev (fst m), snd m).

(** The contents of the [events] channel. *)
Fixpoint events (t : list Obs) : list string :=
  match t with
  | [] => []
  | Ev s :: t' => s :: events t'
  | _ :: t' => events t'
  end.

(** The output of the last step that completed in a trace. *)
Fixpoint last_output (t : list Obs) : option Payload :=
  match t with
  | [] => None
  | StepOut _ o :: t' =>
      match last_output t' with Some o' => Some o' | None => Some o end
  | _ :: t' => last_output t'
  end.

(** ** Middleware *)

(** A Go middleware [func(ctx context.Context, next func(context.Context)
    error) error], given its context, as the program it runs against [next]:
    send on the channel, call [next] with some context and continue with the
    [error] it returned, or return an [error] ([None] is [nil]). *)
Inductive MwProg : Type :=
| Send (s : string) (k : MwProg)
| CallNext (c : Ctx) (k : option string -> MwProg)
| Return (e : option string).

Definition Middleware : Type := Ctx -> MwProg.

(** Running a middleware body against [next]; a panic raised below unwinds
    through it (none of the middlewares recovers). *)
Fixpoint run_prog (p : MwProg) (next : Ctx -> RM unit) : RM unit :=
  match p with
  | Send s k => tell [Ev s] ;;; run_prog k next
  | CallNext c k =>
      match next c with
      | (l, Ok _) => let (l2, r) := run_prog (k None) next in (l ++ l2, r)
      | (l, Err e) => let (l2, r) := run_prog (k (Some e)) next in (l ++ l2, r)
      | (l, Panic m) => (l, Panic m)
      end
  | Return None => ret tt
  | Return (Some e) => ([], Err e)
  end.

(** Modelled from the spec: the composed chain of [pkg/worker] (its source is
    not available).  [Invoke(ctx, terminal)]: middleware [0] wraps middleware
    [1] wraps ... wraps [terminal]; [i] is the position of the head of [mws]
    in the composed chain. *)
Fixpoint invoke (i : nat) (mws : list Middleware) (term : Ctx -> RM unit)
  (ctx : Ctx) : RM unit :=
  match mws with
  | [] => tell [TermRun] ;;; term ctx
  | mw :: rest => tell [Enter i ctx] ;;; run_prog (mw ctx) (invoke (S i) rest term)
  end.

(** ** Steps and workflow jobs *)

Definition Step : Type := Ctx -> Payload -> UM Payload.

Record WorkflowStep : Type := mkWorkflowStep { step_name : string; step_fn : Step }.

(** Modelled from the spec: [worker.Fn] adapts a typed handler; the runtime
    value passed must have the handler's input type, otherwise the step fails
    with a type-mismatch error. *)
Definition FnUser (f : Ctx -> userCreateEvent -> UM stepOneOutput) : Step :=
  fun ctx p =>
    match p with
    | PUserCreate u => o <- f ctx u ;; ret (PStepOne o)
    | _ => ([], Err "input type mismatch")
    end.

Definition FnStepOne (f : Ctx -> stepOneOutput -> UM stepOneOutput) : Step :=
  fun ctx p =>
    match p with
    | PStepOne i => o <- f ctx i ;; ret (PStepOne o)
    | _ => ([], Err "input type mismatch")
    end.

(** [.SetName(name)] *)
Definition SetName (f : Step) (name : string) : WorkflowStep := mkWorkflowStep name f.

Record WorkflowJob : Type := mkWorkflowJob {
  Name : string;
  Description : string;
  Steps : list WorkflowStep
}.

(** Modelled from the spec (4.2): the steps run in sequence in one context,
    [output_i = step_i(ctx, output_{i-1})]; a failing step stops the run. *)
Fixpoint runSteps (steps : list WorkflowStep) (ctx : Ctx) (x : Payload) : RM Payload :=
  match steps with
  | [] => ret x
  | s :: rest =>
      tell [StepIn (step_name s) ctx x] ;;;
      y <- lift (step_fn s ctx x) ;;
      tell [StepOut (step_name s) y] ;;;
      runSteps rest ctx y
  end.

(** Modelled from the spec: the terminal operation of a run is "run the
    workflow job"; its final output is discarded by this layer. *)
Definition runJob (j : WorkflowJob) (x : Payload) : Ctx -> RM unit :=
  fun ctx => runSteps (Steps j) ctx x ;;; ret tt.

(** ** Services and the worker *)

Record Service : Type := mkService {
  svc_name : string;
  svc_mws : list Middleware;
  svc_ons : list (string * WorkflowJob)
}.

Record Worker : Type := mkWorker {
  w_mws : list Middleware;
  w_services : list Service
}.

Definition NewWorker : Worker := mkWorker [] [].

(** [w.Use(mw)] appends to the process-wide chain. *)
Definition Use (w : Worker) (mw : Middleware) : Worker :=
  mkWorker (w_mws w ++ [mw]) (w_services w).

(** [w.NewService(name)]: an empty service registered on the worker. *)
Definition NewService (w : Worker) (name : string) : Worker :=
  mkWorker (w_mws w) (w_services w ++ [mkService name [] []]).

(** The service value returned by [NewService] is a pointer shared with the
    worker; updates through it are updates of the worker's service record. *)
Definition update_service (w : Worker) (name : string) (f : Service -> Service) : Worker :=
  mkWorker (w_mws w)
    (map (fun s => if String.eqb (svc_name s) name then f s else s) (w_services w)).

(** [svc.Use(mw)] *)
Definition SvcUse (w : Worker) (name : string) (mw : Middleware) : Worker :=
  update_service w name
    (fun s => mkService (svc_name s) (svc_mws s ++ [mw]) (svc_ons s)).

(** [svc.On(worker.Events(key), job)] *)
Definition SvcOn (w : Worker) (name key : string) (j : WorkflowJob) : Worker :=
  update_service w name
    (fun s => mkService (svc_name s) (svc_mws s) (svc_ons s ++ [(key, j)])).

(** Modelled from the spec (4.4): all [(Service, WorkflowJob)] pairs bound to
    [key], by exact string match. *)
Definition matches (w : Worker) (key : string) : list (Service * WorkflowJob) :=
  flat_map (fun s => map (fun kj => (s, snd kj))
                        (filter (fun kj => String.eqb (fst kj) key) (svc_ons s)))
           (w_services w).

(** Modelled from the spec (4.4): one run = process-wide chain followed by the
    service's chain, invoked on a fresh context with the job as terminal. *)
Definition run_match (w : Worker) (m : Service * WorkflowJob) (x : Payload) : RM unit :=
  invoke 0 (w_mws w ++ svc_mws (fst m)) (runJob (snd m) x) [].

(** Modelled from the spec (4.4): an event starts one independent run per
    match. *)
Definition dispatch (w : Worker) (key : string) (x : Payload) : list (RM unit) :=
  map (fun m => run_match w m x) (matches w key).

(** ** The example program ([run] in [examples/middleware]) *)

Module Example.

(** [log.Printf] lines and the [fmt.Printf] timing line go to the log and to
    stdout, not to the [events] channel; they are left out. *)

(** First process-wide middleware. *)
Definition mw1 : Middleware := fun ctx =>
  Send "1st-middleware"
    (CallNext (WithValue ctx "testkey" (IString "testvalue")) (fun err => Return err)).

(** Second process-wide middleware: times [next] and returns its error. *)
Definition mw2 : Middleware := fun ctx =>
  Send "2nd-middleware" (CallNext ctx (fun err => Return err)).

(** The middleware of service "test". *)
Definition svcMw : Middleware := fun ctx =>
  Send "svc-middleware"
    (CallNext (WithValue ctx "svckey" (IString "svcvalue")) (fun err => Return err)).

Definition stepOne (ctx : Ctx) (input : userCreateEvent) : UM stepOneOutput :=
  send "step-one" ;;;
  testVal <- assertString (Value ctx "testkey") ;;
  send testVal ;;;
  svcVal <- assertString (Value ctx "svckey") ;;
  send svcVal ;;;
  ret (mkStepOneOutput ("Username is: " ++ Username input)).

Definition stepTwo (ctx : Ctx) (input : stepOneOutput) : UM stepOneOutput :=
  send "step-two" ;;;
  ret (mkStepOneOutput ("Above message is: " ++ Message input)).

Definition postUserUpdate : WorkflowJob := {|
  Name := "post-user-update";
  Description := "This runs after an update to the user model.";
  Steps := [SetName (FnUser stepOne) "step-one"; SetName (FnStepOne stepTwo) "step-two"]
|}.

Definition eventKey : string := "user:create:middleware".

(** The worker after the registrations of [run]. *)
Definition w : Worker :=
  let w0 := Use (Use NewWorker mw1) mw2 in
  let w1 := NewService w0 "test" in
  let w2 := SvcUse w1 "test" svcMw in
  SvcOn w2 "test" eventKey postUserUpdate.

Definition testEvent : userCreateEvent :=
  mkUserCreateEvent "echo-test" "1234" [("test", "test")].

(** The runs started by [c.Event().Push(ctx, "user:create:middleware", testEvent)]. *)
Definition pushed : list (RM unit) := dispatch w eventKey (PUserCreate testEvent).

End Example.

(** ** Call structure of a chain invocation *)

(** The calls a trace records: [Some i] for entering middleware [i], [None]
    for entering the terminal operation. *)
Fixpoint calls (t : list Obs) : list (option nat) :=
  match t with
  | [] => []
  | Enter i _ :: t' => Some i :: calls t'
  | TermRun :: t' => None :: calls t'
  | _ :: t' => calls t'
  end.

(** A middleware body that never calls [next]. *)
Inductive no_next : MwProg -> Prop :=
| nn_send s k : no_next k -> no_next (Send s k)
| nn_return e : no_next (Return e).

(** A middleware body that calls [next] at most once on every path. *)
Inductive next_at_most_once : MwProg -> Prop :=
| amo_send s k : next_at_most_once k -> next_at_most_once (Send s k)
| amo_call c k : (forall e, no_next (k e)) -> next_at_most_once (CallNext c k)
| amo_return e : next_at_most_once (Return e).

(** A middleware body that calls [next] exactly once on every path. *)
Inductive next_exactly_once : MwProg -> Prop :=
| eo_send s k : next_exactly_once k -> next_exactly_once (Send s k)
| eo_call c k : (forall e, no_next (k e)) -> next_exactly_once (CallNext c k).

(** A terminal operation that records no chain calls of its own. *)
Definition quiet_terminal (term : Ctx -> RM unit) : Prop :=
  forall c, calls (fst (term c)) = [].

Definition call_eq_dec (x y : option nat) : {x = y} + {x <> y}.
Proof. decide equality; apply Nat.eq_dec. Defined.

(** A middleware that calls [next] twice (a retry). *)
Definition retryMw : Middleware := fun ctx =>
  CallNext ctx (fun _ => CallNext ctx (fun err => Return err)).

(** ** Step handoff *)

(** The step entries of a trace, in order. *)
Fixpoint step_events (t : list Obs) : list Obs :=
  match t with
  | [] => []
  | (StepIn _ _ _ as o) :: t' | (StepOut _ _ as o) :: t' => o :: step_events t'
  | _ :: t' => step_events t'
  end.

(** The sequence the design document prescribes, read from its words:
    step [i] receives [output_{i-1}] ([output_0] is the event payload) and
    produces [output_i = step_i(ctx, output_{i-1})]; after a failing step no
    further step starts. *)
Fixpoint handoff_spec (ctx : Ctx) (steps : list WorkflowStep) (x : Payload) : list Obs :=
  match steps with
  | [] => []
  | s :: rest =>
      StepIn (step_name s) ctx x ::
      match snd (step_fn s ctx x) with
      | Ok y => StepOut (step_name s) y :: handoff_spec ctx rest y
      | _ => []
      end
  end.

(** The context every step of the example job sees. *)
Definition example_step_ctx : Ctx :=
  [("svckey", IString "svcvalue"); ("testkey", IString "testvalue")].

(** ** Error propagation *)

(** A middleware tail that sends on the channel and then returns the error
    [e] as it is. *)
Inductive returns_error (e : string) : MwProg -> Prop :=
| re_send s k : returns_error e k -> returns_error e (Send s k)
| re_return : returns_error e (Return (Some e)).

(** A middleware body that calls [next] and returns the error [next] returned
    without wrapping or suppressing it. *)
Inductive passes_error : MwProg -> Prop :=
| pe_send s k : passes_error k -> passes_error (Send s k)
| pe_call c k : (forall e, returns_error e (k (Some e))) -> passes_error (CallNext c k).

(** A step that always fails with [e]. *)
Definition failingStep (e : string) : Step := fun _ _ => ([], Err e).

(** A step whose failure depends on its context: it fails when no [svckey]
    is set, and passes its input on otherwise. *)
Definition needsSvcKey : Step := fun ctx x =>
  match Value ctx "svckey" with
  | Some _ => ret x
  | None => ([], Err "svckey missing")
  end.

(** The context a middleware body passes to its first [next] call. *)
Fixpoint first_call (p : MwProg) : option Ctx :=
  match p with
  | Send _ k => first_call k
  | CallNext c _ => Some c
  | Return _ => None
  end.

(** The context layer [k] of a chain receives when invoked on [ctx], each
    layer above it passing on the context of its first [next] call: layer [0]
    gets [ctx]; [layer_ctx mws ctx (length mws)] is the context the terminal
    operation runs in. *)
Fixpoint layer_ctx (mws : list Middleware) (ctx : Ctx) (k : nat) : option Ctx :=
  match k, mws with
  | 0, _ => Some ctx
  | S k', mw :: rest =>
      match first_call (mw ctx) with
      | Some c => layer_ctx rest c k'
      | None => None
      end
  | S _, [] => None
  end.

(** ** Context visibility and isolation *)

(** What the run records about the context each layer and each step sees:
    middlewares after the first see [testkey]; steps see [testkey] and
    [svckey]. *)
Definition example_visible (o : Obs) : Prop :=
  match o with
  | Enter i c => 1 <= i -> Value c "testkey" = Some (IString "testvalue")
  | StepIn _ c _ =>
      Value c "testkey" = Some (IString "testvalue") /\
      Value c "svckey" = Some (IString "svcvalue")
  | _ => True
  end.

(** Every context a middleware body passes to [next], on every path, satisfies
    [P]. *)
Inductive next_ctx_all (P : Ctx -> Prop) : MwProg -> Prop :=
| nca_send s k : next_ctx_all P k -> next_ctx_all P (Send s k)
| nca_call c k : P c -> (forall e, next_ctx_all P (k e)) -> next_ctx_all P (CallNext c k)
| nca_return e : next_ctx_all P (Return e).

(** A middleware that adds the entry [k = v]: whatever context it gets, the
    context it passes to [next] maps [k] to [v]. *)
Definition adds_entry (k : string) (v : iface) (mw : Middleware) : Prop :=
  forall ctx, next_ctx_all (fun c => Value c k = Some v) (mw ctx).

(** A middleware that keeps the entry under [k]: the context it passes to
    [next] maps [k] as its own context does (it derives that context from its
    own without binding [k] again). *)
Definition keeps_entry (k : string) (mw : Middleware) : Prop :=
  forall ctx, next_ctx_all (fun c => Value c k = Value ctx k) (mw ctx).

(** A trace entry that sees [k = v] if it is downstream of layer [n]: a
    middleware after layer [n], or a step. *)
Definition sees_entry (n : nat) (k : string) (v : iface) (o : Obs) : Prop :=
  match o with
  | Enter i c => n < i -> Value c k = Some v
  | StepIn _ c _ => Value c k = Some v
  | _ => True
  end.

(** The runs of an event, tagged with the name of the service they were
    dispatched through. *)
Definition dispatch_named (w : Worker) (key : string) (x : Payload)
  : list (string * RM unit) :=
  map (fun m => (svc_name (fst m), run_match w m x)) (matches w key).

(** The runs dispatched through services other than [name]. *)
Definition runs_not_through (name : string) (rs : list (string * RM unit))
  : list (string * RM unit) :=
  filter (fun p => negb (String.eqb (fst p) name)) rs.

(** Two services bound to the example's event key, for the isolation and
    independence statements. *)
Definition svcA : Service :=
  mkService "a" [Example.svcMw] [(Example.eventKey, Example.postUserUpdate)].
Definition svcA' : Service :=
  mkService "a" [] [(Example.eventKey, Example.postUserUpdate)].
Definition svcB : Service :=
  mkService "b" [Example.svcMw] [(Example.eventKey, Example.postUserUpdate)].

(** ** Lifecycle of the example process *)

Module Lifecycle.

(** Modelled from the spec (4.4): the states of the worker. *)
Inductive WState : Type := Created | Running | ShuttingDown | Stopped.

Definition WState_eqb (a b : WState) : bool :=
  match a, b with
  | Created, Created | Running, Running
  | ShuttingDown, ShuttingDown | Stopped, Stopped => true
  | _, _ => false
  end.

(** The process running [run]: the worker goroutine with its in-flight runs,
    each a run together with the number of its trace entries performed so
    far, the runs completed, the number of runs ever started, whether the
    interrupt context is cancelled, and whether [main] has returned (the Go
    process then exits and every goroutine stops). *)
Record Proc : Type := mkProc {
  p_worker : Worker;
  p_state : WState;
  p_cancelled : bool;
  p_exited : bool;
  p_inflight : list (RM unit * nat);
  p_done : list (RM unit);
  p_started : nat
}.

Inductive Action : Type :=
| AStart                          (* [go w.Start(interruptCtx)] *)
| APush (key : string) (x : Payload)  (* an event reaches the worker *)
| ATick (i : nat)                 (* in-flight run [i] performs one more entry *)
| ASignal                         (* the interrupt fires: [interruptCtx] is done *)
| AMainPoll                       (* one iteration of [run]'s [select] loop *)
| AWorkerStop.                    (* the worker, shutting down and idle, stops *)

Definition with_state (p : Proc) (st : WState) : Proc :=
  mkProc (p_worker p) st (p_cancelled p) (p_exited p) (p_inflight p) (p_done p) (p_started p).

Fixpoint remove_nth {A} (i : nat) (l : list A) : list A :=
  match i, l with
  | _, [] => []
  | 0, _ :: l' => l'
  | S i', a :: l' => a :: remove_nth i' l'
  end.

Fixpoint replace_nth {A} (i : nat) (a : A) (l : list A) : list A :=
  match i, l with
  | _, [] => []
  | 0, _ :: l' => a :: l'
  | S i', b :: l' => b :: replace_nth i' a l'
  end.

(** One transition.  The worker part is modelled from the spec (4.4, 5):
    pushes start runs only while [Running]; the signal moves the worker to
    [ShuttingDown]; in-flight runs are never aborted by the worker.  The main
    loop follows [run]: once [interruptCtx.Done()] is closed it returns
    [nil], and [main] returns. *)
Definition step (p : Proc) (a : Action) : Proc :=
  if p_exited p then p else
  match a with
  | AStart =>
      match p_state p with Created => with_state p Running | _ => p end
  | APush key x =>
      match p_state p with
      | Running =>
          let rs := dispatch (p_worker p) key x in
          mkProc (p_worker p) (p_state p) (p_cancelled p) (p_exited p)
            (p_inflight p ++ map (fun r => (r, 0)) rs) (p_done p)
            (p_started p + length rs)
      | _ => p
      end
  | ATick i =>
      match nth_error (p_inflight p) i with
      | Some (r, n) =>
          if Nat.ltb (S n) (length (fst r)) then
            mkProc (p_worker p) (p_state p) (p_cancelled p) (p_exited p)
              (replace_nth i (r, S n) (p_inflight p)) (p_done p) (p_started p)
          else
            mkProc (p_worker p) (p_state p) (p_cancelled p) (p_exited p)
              (remove_nth i (p_inflight p)) (p_done p ++ [r]) (p_started p)
      | None => p
      end
  | ASignal =>
      mkProc (p_worker p)
        (match p_state p with Stopped => Stopped | _ => ShuttingDown end)
        true (p_exited p) (p_inflight p) (p_done p) (p_started p)
  | AMainPoll =>
      if p_cancelled p then
        mkProc (p_worker p) (p_state p) (p_cancelled p) true
          (p_inflight p) (p_done p) (p_started p)
      else p
  | AWorkerStop =>
      match p_state p, p_inflight p with
      | ShuttingDown, [] => with_state p Stopped
      | _, _ => p
      end
  end.

Definition exec (p : Proc) (acts : list Action) : Proc := fold_left step acts p.

Definition init : Proc := mkProc Example.w Created false false [] [] 0.

(** The example: start, push the event, the run performs its first entry,
    then the interrupt fires and the main loop polls. *)
Definition before_signal : list Action :=
  [AStart; APush Example.eventKey (PUserCreate Example.testEvent); ATick 0].

(** The process right before the interrupt. *)
Definition at_signal : Proc := exec init before_signal.

(** The process right after the interrupt, and the run then in flight. *)
Definition after_signal : Proc := exec init (before_signal ++ [ASignal]).

Definition inflight_run : RM unit := fst (hd (ret tt, 0) (p_inflight after_signal)).

Definition inflight_pos : nat := snd (hd (ret tt, 0) (p_inflight after_signal)).

End Lifecycle.

(** ** The custom OAuth callback ([api/v1/server/handlers/users]) *)

Module OAuth.

(** Go [error] values are represented by their [Error()] text. *)
Definition error := string.

(** [[]byte] *)
Definition bytes := list Ascii.ascii.

Record Token : Type := mkToken {
  AccessToken : string;
  RefreshToken : string;
  Expiry : nat
}.

Record customUserInfo : Type := mkCustomUserInfo {
  Sub : string;
  Email : string;
  EmailVerified : bool;
  UName : string
}.

Record UserModel : Type := mkUserModel { ID : string; UEmail : string }.

(** [repository.OAuthOpts]; [RefreshToken] and [ExpiresAt] are pointers. *)
Record OAuthOpts : Type := mkOAuthOpts {
  Provider : string;
  ProviderUserId : string;
  OAccessToken : bytes;
  ORefreshToken : option bytes;
  ExpiresAt : option nat
}.

Record UpdateUserOpts : Type := mkUpdateUserOpts {
  UEmailVerified : option bool;
  UNameOpt : option string;
  UOAuth : OAuthOpts
}.

Record CreateUserOpts : Type := mkCreateUserOpts {
  CEmail : string;
  CEmailVerified : option bool;
  CName : option string;
  COAuth : OAuthOpts
}.

(** The writes issued to the user repository. *)
Inductive RepoWrite : Type :=
| WUpdateUser (id : string) (opts : UpdateUserOpts)
| WCreateUser (opts : CreateUserOpts).

Definition write_oauth (w : RepoWrite) : OAuthOpts :=
  match w with
  | WUpdateUser _ o => UOAuth o
  | WCreateUser o => COAuth o
  end.

(** Outcome of [GetUserByEmail]: the [switch err] distinguishes [nil],
    [db.ErrNotFound] and any other error. *)
Inductive GetUserResult : Type :=
| Found (u : UserModel)
| ErrNotFound
| GetErr (e : error).

(** The success response [UserUpdateCustomOauthCallback302Response]. *)
Record Resp302 : Type := mkResp302 { Location : string }.

(** The run-time panic of a field access through a [nil] pointer. *)
Definition nilDeref : string :=
  "runtime error: invalid memory address or nil pointer dereference".

Section Handlers.

(** The collaborators: session helpers, the OAuth2 config, the user-info
    endpoint, the encryption service, the user repository and the redirect
    helper; each is given by the result it returns.  The user-info fetch
    returns a [*customUserInfo] and an [error]: [inr None] is a [nil] pointer with a
    [nil] error (what [getCustomUserInfoFromToken] returns on a JSON [null]
    body, see [OAuthInfo]). *)
Variable ValidateOAuthState : bool * option error.
Variable code : string.
Variable Exchange : string -> error + Token.
Variable Valid : Token -> bool.
Variable IsNotInRestrictedDomain : error -> bool.
Variable SaveAuthenticated : UserModel -> option error.
Variable ServerURL : string.
Variable RedirectResult : Type.
Variable GetRedirectWithError : option error -> string -> RedirectResult.
Variable getCustomUserInfoFromToken : Token -> error + option customUserInfo.
Variable checkUserRestrictions : string -> option error.
Variable Encrypt : bytes -> string -> error + bytes.
Variable GetUserByEmail : string -> GetUserResult.
Variable UpdateUser : string -> UpdateUserOpts -> error + UserModel.
Variable CreateUser : CreateUserOpts -> error + UserModel.

(** The writes issued to the repository, and the outcome: the user, the
    returned error, or a panic ([cInfo.Email] on a [nil] [cInfo]). *)
Definition upsertCustomUserFromToken (tok : Token) : list RepoWrite * res UserModel :=
  match getCustomUserInfoFromToken tok with
  | inl err => ([], Err err)
  | inr None => ([], Panic nilDeref)
  | inr (Some cInfo) =>
      match checkUserRestrictions (Email cInfo) with
      | Some err => ([], Err err)
      | None =>
          let expiresAt := Expiry tok in
          match Encrypt (list_ascii_of_string (AccessToken tok)) "custom_access_token" with
          | inl err => ([], Err (String.append "failed to encrypt access token: " err))
          | inr accessTokenEncrypted =>
              match Encrypt (list_ascii_of_string (RefreshToken tok)) "custom_refresh_token" with
              | inl err => ([], Err (String.append "failed to encrypt refresh token: " err))
              | inr refreshTokenEncrypted =>
                  let oauthOpts := mkOAuthOpts "custom" (Sub cInfo) accessTokenEncrypted
                                     (Some refreshTokenEncrypted) (Some expiresAt) in
                  match GetUserByEmail (Email cInfo) with
                  | Found user =>
                      let opts := mkUpdateUserOpts (Some (EmailVerified cInfo))
                                    (Some (UName cInfo)) oauthOpts in
                      match UpdateUser (ID user) opts with
                      | inl err => ([WUpdateUser (ID user) opts],
                                    Err (String.append "failed to update user: " err))
                      | inr user' => ([WUpdateUser (ID user) opts], Ok user')
                      end
                  | ErrNotFound =>
                      let opts := mkCreateUserOpts (Email cInfo) (Some (EmailVerified cInfo))
                                    (Some (UName cInfo)) oauthOpts in
                      match CreateUser opts with
                      | inl err => ([WCreateUser opts], Err (String.append "failed to create user: " err))
                      | inr user' => ([WCreateUser opts], Ok user')
                      end
                  | GetErr err => ([], Err (String.append "failed to get user: " err))
                  end
              end
          end
      end
  end.

(** The second result of the handler: Go's [error], [nil] or the value of a
    [redirect.GetRedirectWithError] call. *)
Inductive HandlerErr : Type :=
| NilErr
| FromRedirect (v : RedirectResult).

(** The handler returns its two results ([Ok (response, error)]) or panics
    when a callee panics: nothing in it recovers. *)
Definition UserUpdateCustomOauthCallback : res (option Resp302 * HandlerErr) :=
  let (isValid, err) := ValidateOAuthState in
  if match err with Some _ => true | None => negb isValid end then
    Ok (None, FromRedirect (GetRedirectWithError err
      "Could not log in. Please try again and make sure cookies are enabled."))
  else
  match Exchange code with
  | inl err => Ok (None, FromRedirect (GetRedirectWithError (Some err) "Forbidden"))
  | inr token =>
      if negb (Valid token) then
        Ok (None, FromRedirect (GetRedirectWithError (Some "invalid token") "Forbidden"))
      else
      match snd (upsertCustomUserFromToken token) with
      | Err err =>
          if IsNotInRestrictedDomain err then
            Ok (None, FromRedirect (GetRedirectWithError (Some err)
              "Email is not in the restricted domain group."))
          else Ok (None, FromRedirect (GetRedirectWithError (Some err) "Internal error."))
      | Panic p => Panic p
      | Ok user =>
          match SaveAuthenticated user with
          | Some err => Ok (None, FromRedirect (GetRedirectWithError (Some err) "Internal error."))
          | None => Ok (Some (mkResp302 ServerURL), NilErr)
          end
      end
  end.

End Handlers.

Arguments NilErr {RedirectResult}.
Arguments FromRedirect {RedirectResult} v.

End OAuth.

(** ** Fetching the user info ([getCustomUserInfoFromToken]) *)

Module OAuthInfo.
Import OAuth.

(** An outgoing [*http.Request]: method, URL and header lines in the order
    they were added. *)
Record Request : Type := mkRequest {
  Method : string;
  URL : string;
  Header : list (string * string)
}.

(** [req.Header.Add(key, value)] *)
Definition HeaderAdd (req : Request) (k v : string) : Request :=
  mkRequest (Method req) (URL req) (Header req ++ [(k, v)]).

Section Fetch.

(** The configured [Custom.ResourceURL]; [http.NewRequest] fails only when
    the method or URL do not parse ([ParseURL]); the HTTP client, the body
    reader and [json.Unmarshal] are given by their results.  [Unmarshal]
    decodes into [&cInfo], a [**customUserInfo]: JSON [null] sets [cInfo] to
    [nil] ([None]).  The [fmt.Printf] of the scopes goes to stdout and is left
    out. *)
Variable ResourceURL : string.
Variable ParseURL : string -> option error.
Variable Body : Type.
Variable Do : Request -> error + Body.
Variable ReadAll : Body -> error + bytes.
Variable Unmarshal : bytes -> error + option customUserInfo.

(** The requests sent by the client, and the result. *)
Definition getCustomUserInfoFromToken (tok : Token)
  : list Request * (error + option customUserInfo) :=
  let url := ResourceURL in
  match ParseURL url with
  | Some err => ([], inl (String.append "failed creating request: " err))
  | None =>
      let req := HeaderAdd (mkRequest "GET" url []) "Authorization"
                   (String.append "Bearer " (AccessToken tok)) in
      match Do req with
      | inl err => ([req], inl (String.append "failed getting user info: " err))
      | inr response =>
          match ReadAll response with
          | inl err => ([req], inl (String.append "failed reading response body: " err))
          | inr contents =>
              match Unmarshal contents with
              | inl err => ([req], inl (String.append "failed parsing response body: " err))
              | inr cInfo => ([req], inr cInfo)
              end
          end
      end
  end.

End Fetch.

End OAuthInfo.

(** ** Concrete collaborators for the OAuth statements *)

Module OAuthEnv.
Import OAuth.

Definition tok0 : Token := mkToken "access" "refresh" 3600.
Definition info0 : customUserInfo := mkCustomUserInfo "sub-1" "a@example.com" true "Alice".
Definition user0 : UserModel := mkUserModel "user-1" "a@example.com".
Definition getInfo0 : Token -> error + option customUserInfo := fun _ => inr (Some info0).
Definition check0 : string -> option error := fun _ => None.
Definition enc0 : bytes -> string -> error + bytes := fun b _ => inr (rev b).
Definition found0 : string -> GetUserResult := fun _ => Found user0.
Definition notFound0 : string -> GetUserResult := fun _ => ErrNotFound.
Definition getErr0 : string -> GetUserResult := fun _ => GetErr "connection refused".
Definition update0 : string -> UpdateUserOpts -> error + UserModel := fun _ _ => inr user0.
Definition create0 : CreateUserOpts -> error + UserModel := fun _ => inr user0.
Definition exchange0 : string -> error + Token := fun _ => inr tok0.
Definition valid0 : Token -> bool := fun _ => true.
Definition restricted0 : error -> bool := fun e => String.eqb e "not in restricted domain".
Definition save0 : UserModel -> option error := fun _ => None.
Definition redirect0 : option error -> string -> string :=
  fun _ m => m.

(** A user-info endpoint that answers [200] with the body [null], fetched by
    [getCustomUserInfoFromToken]; the decoder stands for [json.Unmarshal] into
    [&cInfo], which sets [cInfo] to [nil] on [null]. *)
Definition userInfoURL : string := "https://idp.example.com/userinfo".
Definition parse0 : string -> option error := fun _ => None.
Definition do0 : OAuthInfo.Request -> error + unit := fun _ => inr tt.
Definition unmarshal0 : bytes -> error + option customUserInfo :=
  fun b => if String.eqb (string_of_list_ascii b) "null" then inr None else inr (Some info0).
Definition readEOF : unit -> error + bytes := fun _ => inl "unexpected EOF".

End OAuthEnv.

(** The callback handler with its OAuth state check result as last
    argument. *)
Module OAuthCallback.
Import OAuth.

Definition callback (code : string) (Exchange : string -> error + Token)
  (Valid : Token -> bool) (IsNotInRestrictedDomain : error -> bool)
  (SaveAuthenticated : UserModel -> option error) (ServerURL : string)
  (RedirectResult : Type) (GetRedirectWithError : option error -> string -> RedirectResult)
  (gi : Token -> error + option customUserInfo) (cu : string -> option error)
  (enc : bytes -> string -> error + bytes) (gu : string -> GetUserResult)
  (uu : string -> UpdateUserOpts -> error + UserModel)
  (cr : CreateUserOpts -> error + UserModel) (st : bool * option error)
  : res (option Resp302 * HandlerErr RedirectResult) :=
  UserUpdateCustomOauthCallback st code Exchange Valid IsNotInRestrictedDomain
    SaveAuthenticated ServerURL RedirectResult GetRedirectWithError gi cu enc gu uu cr.

End OAuthCallback.

(** * Claims *)

(** C1: pushing [user:create:middleware] with [{Username: "echo-test"}]
    starts one run, which sends the markers "1st-middleware",
    "2nd-middleware", "svc-middleware", "step-one", "testvalue", "svcvalue",
    "step-two" on the [events] channel in this order, succeeds, and whose last
    step outputs [{Message: "Above message is: Username is: echo-test"}]. *)
Theorem example_push_markers_and_output :
  map (fun r => (events (fst r), last_output (fst r), snd r)) Example.pushed =
  [(["1st-middleware"; "2nd-middleware"; "svc-middleware"; "step-one";
     "testvalue"; "svcvalue"; "step-two"],
    Some (PStepOne (mkStepOneOutput "Above message is: Username is: echo-test")),
    Ok tt)].
Proof. vm_compute. reflexivity. Qed.

(** ** Lemmas on chain invocation *)

Lemma calls_app (a b : list Obs) : calls (a ++ b) = calls a ++ calls b.
Proof.
  induction a as [|o a IH]; [reflexivity|].
  destruct o; simpl; rewrite ?IH; reflexivity.
Qed.

Lemma run_prog_no_next (p : MwProg) (next : Ctx -> RM unit) :
  no_next p -> calls (fst (run_prog p next)) = [].
Proof.
  induction 1 as [s k _ IH|e]; simpl.
  - destruct (run_prog k next) as [l r] eqn:E. simpl in *. exact IH.
  - destruct e; reflexivity.
Qed.

Lemma run_prog_at_most_once (p : MwProg) (next : Ctx -> RM unit) :
  next_at_most_once p ->
  calls (fst (run_prog p next)) = [] \/
  exists c, calls (fst (run_prog p next)) = calls (fst (next c)).
Proof.
  induction 1 as [s k _ IH|c k Hk|e]; simpl.
  - destruct (run_prog k next) as [l r] eqn:E. simpl in *. exact IH.
  - right. exists c.
    destruct (next c) as [l [u|er|m]].
    + pose proof (run_prog_no_next (k None) next (Hk None)) as H.
      destruct (run_prog (k None) next) as [l2 r].
      simpl in *. rewrite calls_app, H, app_nil_r. reflexivity.
    + pose proof (run_prog_no_next (k (Some er)) next (Hk (Some er))) as H.
      destruct (run_prog (k (Some er)) next) as [l2 r].
      simpl in *. rewrite calls_app, H, app_nil_r. reflexivity.
    + reflexivity.
  - left. destruct e; reflexivity.
Qed.

Lemma run_prog_exactly_once (p : MwProg) (next : Ctx -> RM unit) :
  next_exactly_once p ->
  exists c, calls (fst (run_prog p next)) = calls (fst (next c)).
Proof.
  intro H. induction H as [s k _ IH|c k Hk].
  - simpl. destruct (run_prog k next) as [l r] eqn:E. simpl in *. exact IH.
  - exists c. simpl.
    destruct (next c) as [l [u|er|m]].
    + pose proof (run_prog_no_next (k None) next (Hk None)) as H.
      destruct (run_prog (k None) next) as [l2 r].
      simpl in *. rewrite calls_app, H, app_nil_r. reflexivity.
    + pose proof (run_prog_no_next (k (Some er)) next (Hk (Some er))) as H.
      destruct (run_prog (k (Some er)) next) as [l2 r].
      simpl in *. rewrite calls_app, H, app_nil_r. reflexivity.
    + reflexivity.
Qed.

Lemma invoke_at_most_once (mws : list Middleware) (term : Ctx -> RM unit) :
  Forall (fun mw => forall c, next_at_most_once (mw c)) mws ->
  quiet_terminal term ->
  forall i ctx, exists m, m <= length mws /\
    (calls (fst (invoke i mws term ctx)) = map Some (seq i m) \/
     (m = length mws /\
      calls (fst (invoke i mws term ctx)) = map Some (seq i m) ++ [None])).
Proof.
  intros Hall Hq. induction Hall as [|mw rest Hmw _ IH]; intros i ctx.
  - exists 0. split; [lia|]. right. split; [reflexivity|]. simpl.
    specialize (Hq ctx). destruct (term ctx) as [l r]. simpl in *.
    rewrite Hq. reflexivity.
  - simpl.
    destruct (run_prog_at_most_once (mw ctx) (invoke (S i) rest term) (Hmw ctx))
      as [H|[c H]];
    destruct (run_prog (mw ctx) (invoke (S i) rest term)) as [l r]; simpl in *.
    + exists 1. split; [lia|]. left. rewrite H. reflexivity.
    + destruct (IH (S i) c) as [m [Hm [H1|[H1 H2]]]].
      * exists (S m). split; [lia|]. left. rewrite H, H1. reflexivity.
      * exists (S m). split; [lia|]. right. split; [lia|].
        rewrite H, H2. reflexivity.
Qed.

Lemma invoke_exactly_once (mws : list Middleware) (term : Ctx -> RM unit) :
  Forall (fun mw => forall c, next_exactly_once (mw c)) mws ->
  quiet_terminal term ->
  forall i ctx,
    calls (fst (invoke i mws term ctx)) = map Some (seq i (length mws)) ++ [None].
Proof.
  intros Hall Hq. induction Hall as [|mw rest Hmw _ IH]; intros i ctx.
  - simpl. specialize (Hq ctx). destruct (term ctx) as [l r]. simpl in *.
    rewrite Hq. reflexivity.
  - simpl.
    destruct (run_prog_exactly_once (mw ctx) (invoke (S i) rest term) (Hmw ctx))
      as [c H].
    destruct (run_prog (mw ctx) (invoke (S i) rest term)) as [l r]; simpl in *.
    rewrite H, IH. reflexivity.
Qed.

Lemma calls_map_Ev (l : list string) : calls (map Ev l) = [].
Proof. induction l; simpl; auto. Qed.

Lemma runSteps_calls (steps : list WorkflowStep) (ctx : Ctx) (x : Payload) :
  calls (fst (runSteps steps ctx x)) = [].
Proof.
  revert x. induction steps as [|s rest IH]; intro x; [reflexivity|].
  simpl. destruct (step_fn s ctx x) as [l [y|e|m]]; simpl.
  - specialize (IH y). destruct (runSteps rest ctx y) as [l2 r]. simpl in *.
    rewrite calls_app, calls_map_Ev. simpl. exact IH.
  - rewrite calls_map_Ev. reflexivity.
  - rewrite calls_map_Ev. reflexivity.
Qed.

Lemma runJob_quiet (j : WorkflowJob) (x : Payload) : quiet_terminal (runJob j x).
Proof.
  intro c. unfold runJob. pose proof (runSteps_calls (Steps j) c x) as H.
  destruct (runSteps (Steps j) c x) as [l [u|e|m]]; simpl in *; rewrite ?app_nil_r; exact H.
Qed.

Lemma example_middlewares_exactly_once :
  Forall (fun mw => forall c, next_exactly_once (mw c))
    [Example.mw1; Example.mw2; Example.svcMw].
Proof.
  repeat constructor; intros; constructor.
Qed.

(** C2 (counterexample): a middleware that calls [next] twice makes the chain
    enter the next middleware twice and run the terminal operation twice. *)
Lemma chain_retry_calls_twice :
  let t := fst (invoke 0 [retryMw; Example.mw2] (fun _ => ret tt) []) in
  calls t = [Some 0; Some 1; None; Some 1; None] /\
  count_occ (call_eq_dec) (calls t) (Some 1) = 2 /\
  count_occ (call_eq_dec) (calls t) None = 2.
Proof. vm_compute. repeat split. Qed.

(** C2 (amended): when every middleware calls [next] at most once on every
    path, one invocation of the composed chain enters middlewares only in
    registration order, each at most once, as a prefix [0 .. m-1] of the
    chain (middleware [i+1] is entered only when middleware [i] calls
    [next]); the terminal operation runs at most once, and only when all N
    middlewares were entered.  When every middleware calls [next] exactly
    once, all N are entered once each in order, then the terminal once. *)
Theorem chain_calls_in_registration_order (mws : list Middleware)
  (term : Ctx -> RM unit) (ctx : Ctx) (Hq : quiet_terminal term) :
  ((Forall (fun mw => forall c, next_at_most_once (mw c)) mws) ->
   exists m, m <= length mws /\
     (calls (fst (invoke 0 mws term ctx)) = map Some (seq 0 m) \/
      (m = length mws /\
       calls (fst (invoke 0 mws term ctx)) = map Some (seq 0 m) ++ [None]))) /\
  ((Forall (fun mw => forall c, next_exactly_once (mw c)) mws) ->
   calls (fst (invoke 0 mws term ctx)) = map Some (seq 0 (length mws)) ++ [None]).
Proof.
  split; intro H.
  - exact (invoke_at_most_once mws term H Hq 0 ctx).
  - exact (invoke_exactly_once mws term H Hq 0 ctx).
Qed.

Lemma chain_calls_in_registration_order_witness :
  quiet_terminal (runJob Example.postUserUpdate (PUserCreate Example.testEvent)) /\
  calls (fst (invoke 0 [Example.mw1; Example.mw2; Example.svcMw]
                (runJob Example.postUserUpdate (PUserCreate Example.testEvent)) []))
  = [Some 0; Some 1; Some 2; None].
Proof.
  split; [apply runJob_quiet|].
  exact (proj2 (chain_calls_in_registration_order
                  [Example.mw1; Example.mw2; Example.svcMw] _ []
                  (runJob_quiet Example.postUserUpdate (PUserCreate Example.testEvent)))
                example_middlewares_exactly_once).
Defined.

Lemma step_events_app (a b : list Obs) :
  step_events (a ++ b) = step_events a ++ step_events b.
Proof.
  induction a as [|o a IH]; [reflexivity|].
  destruct o; simpl; rewrite ?IH; reflexivity.
Qed.

Lemma step_events_map_Ev (l : list string) : step_events (map Ev l) = [].
Proof. induction l; simpl; auto. Qed.

Lemma runSteps_step_events (steps : list WorkflowStep) (ctx : Ctx) (x : Payload) :
  step_events (fst (runSteps steps ctx x)) = handoff_spec ctx steps x.
Proof.
  revert x. induction steps as [|s rest IH]; intro x; [reflexivity|].
  simpl. destruct (step_fn s ctx x) as [l [y|e|m]]; simpl.
  - specialize (IH y). destruct (runSteps rest ctx y) as [l2 r]. simpl in *.
    rewrite step_events_app, step_events_map_Ev. simpl. rewrite IH. reflexivity.
  - rewrite step_events_map_Ev. reflexivity.
  - rewrite step_events_map_Ev. reflexivity.
Qed.

(** C3: the runtime runs the steps of any job in sequence with a typed
    handoff: the step entries of the run are exactly those of
    [output_i = step_i(ctx, output_{i-1})] from [output_0 = x0], stopping at a
    failing step.  For the registered job and every [userCreateEvent] payload,
    step-two's input is step-one's output. *)
Theorem steps_run_in_sequence_with_handoff :
  (forall (steps : list WorkflowStep) (ctx : Ctx) (x0 : Payload),
     step_events (fst (runSteps steps ctx x0)) = handoff_spec ctx steps x0) /\
  (forall u : userCreateEvent,
     map (fun r => step_events (fst r))
       (dispatch Example.w Example.eventKey (PUserCreate u)) =
     [[StepIn "step-one" example_step_ctx (PUserCreate u);
       StepOut "step-one" (PStepOne (mkStepOneOutput ("Username is: " ++ Username u)));
       StepIn "step-two" example_step_ctx
         (PStepOne (mkStepOneOutput ("Username is: " ++ Username u)));
       StepOut "step-two" (PStepOne (mkStepOneOutput
         ("Above message is: " ++ ("Username is: " ++ Username u))))]]).
Proof.
  split.
  - exact runSteps_step_events.
  - intro u. destruct u as [name uid data]. cbv. reflexivity.
Qed.

Lemma runSteps_app (pre post : list WorkflowStep) (ctx : Ctx) (x : Payload) :
  runSteps (pre ++ post) ctx x = (y <- runSteps pre ctx x ;; runSteps post ctx y).
Proof.
  revert x. induction pre as [|s pre IH]; intro x.
  - simpl. destruct (runSteps post ctx x). reflexivity.
  - simpl. destruct (step_fn s ctx x) as [l [y|e|m]]; simpl; [|reflexivity|reflexivity].
    rewrite IH. destruct (runSteps pre ctx y) as [l2 [z|e|m]]; simpl;
    [destruct (runSteps post ctx z) as [l3 r]|..];
    rewrite <- ?app_assoc; reflexivity.
Qed.

Lemma returns_error_run (e : string) (p : MwProg) (next : Ctx -> RM unit) :
  returns_error e p -> snd (run_prog p next) = Err e.
Proof.
  induction 1 as [s k _ IH|]; simpl; [|reflexivity].
  destruct (run_prog k next). exact IH.
Qed.

Lemma returns_error_trace (e : string) (p : MwProg) (next : Ctx -> RM unit) :
  returns_error e p -> step_events (fst (run_prog p next)) = [].
Proof.
  induction 1 as [s k _ IH|]; simpl; [|reflexivity].
  destruct (run_prog k next). exact IH.
Qed.

Lemma passes_error_run_at (e : string) (p : MwProg) (next : Ctx -> RM unit) (c : Ctx) :
  passes_error p -> first_call p = Some c -> snd (next c) = Err e ->
  snd (run_prog p next) = Err e /\
  step_events (fst (run_prog p next)) = step_events (fst (next c)).
Proof.
  intros H Hc Hn. induction H as [s k _ IH|c' k Hk]; simpl in Hc |- *.
  - specialize (IH Hc). destruct (run_prog k next). exact IH.
  - injection Hc as ->. destruct (next c) as [l r]. simpl in Hn |- *. subst r.
    pose proof (returns_error_run e (k (Some e)) next (Hk e)) as H1.
    pose proof (returns_error_trace e (k (Some e)) next (Hk e)) as H2.
    destruct (run_prog (k (Some e)) next) as [l2 r]. simpl in *.
    rewrite step_events_app, H2, app_nil_r. split; [exact H1|reflexivity].
Qed.

Lemma invoke_error_at_terminal (e : string) (mws : list Middleware) (term : Ctx -> RM unit) :
  Forall (fun mw => forall c, passes_error (mw c)) mws ->
  forall i ctx c, layer_ctx mws ctx (length mws) = Some c -> snd (term c) = Err e ->
  snd (invoke i mws term ctx) = Err e /\
  step_events (fst (invoke i mws term ctx)) = step_events (fst (term c)).
Proof.
  intro Hall. induction Hall as [|mw rest Hmw _ IH]; intros i ctx c Hl Ht; simpl in Hl |- *.
  - injection Hl as <-. destruct (term ctx). split; [exact Ht|reflexivity].
  - destruct (first_call (mw ctx)) as [c1|] eqn:Hc1; [|discriminate].
    destruct (IH (S i) c1 c Hl Ht) as [H1 H2].
    destruct (passes_error_run_at e (mw ctx) (invoke (S i) rest term) c1 (Hmw ctx) Hc1 H1)
      as [H3 H4].
    destruct (run_prog (mw ctx) (invoke (S i) rest term)) as [l r]. simpl in *.
    rewrite H4, H2. split; [exact H3|reflexivity].
Qed.

Lemma layer_ctx_skipn (mws : list Middleware) (ctx c' : Ctx) (k : nat) :
  layer_ctx mws ctx k = Some c' ->
  layer_ctx mws ctx (length mws) = layer_ctx (skipn k mws) c' (length (skipn k mws)).
Proof.
  revert mws ctx. induction k as [|k IH]; intros mws ctx Hl.
  - destruct mws; simpl in Hl; injection Hl as <-; reflexivity.
  - destruct mws as [|mw rest]; simpl in Hl; [discriminate|].
    destruct (first_call (mw ctx)) as [c1|] eqn:Hc1; [|discriminate].
    simpl. rewrite Hc1. exact (IH rest c1 Hl).
Qed.

Lemma Forall_skipn_mw (P : Middleware -> Prop) (k : nat) (l : list Middleware) :
  Forall P l -> Forall P (skipn k l).
Proof.
  revert l. induction k as [|k IH]; intros l Hl; [exact Hl|].
  destruct l as [|x l]; [constructor|]. inversion Hl; subst. simpl. apply IH. assumption.
Qed.

Lemma runSteps_stops_at_error (pre post : list WorkflowStep) (s : WorkflowStep) (ctx : Ctx)
  (x y : Payload) (l : list Obs) (e : string) :
  runSteps pre ctx x = (l, Ok y) ->
  snd (step_fn s ctx y) = Err e ->
  runSteps (pre ++ s :: post) ctx x =
  (l ++ StepIn (step_name s) ctx y :: map Ev (fst (step_fn s ctx y)), Err e).
Proof.
  intros Hpre Hs. rewrite runSteps_app, Hpre. simpl.
  destruct (step_fn s ctx y) as [l1 r]. simpl in Hs. subst r. simpl.
  reflexivity.
Qed.

Lemma example_middlewares_pass_error :
  Forall (fun mw => forall c, passes_error (mw c))
    [Example.mw1; Example.mw2; Example.svcMw].
Proof.
  repeat constructor; intros; constructor; intro e; constructor.
Qed.

(** C4: a failing step stops the job: the trace of the run ends with that
    step's own entries and the run fails with the step's error.  In a chain
    whose middlewares return [next]'s error as it is, an error of the terminal
    operation, in the context the chain hands it, is returned unchanged by
    every layer, each invoked in the context its caller passes, up to the
    caller of the invocation; in particular a job whose step fails in the
    context the chain builds makes the whole invocation fail with that error,
    no step after it starting.  The timing middleware returns the error of
    [next] unmodified; the three middlewares of the example are all of this
    kind. *)
Theorem step_error_stops_and_propagates :
  (forall (pre post : list WorkflowStep) (s : WorkflowStep) (ctx : Ctx)
          (x y : Payload) (l : list Obs) (e : string),
     runSteps pre ctx x = (l, Ok y) ->
     snd (step_fn s ctx y) = Err e ->
     runSteps (pre ++ s :: post) ctx x =
     (l ++ StepIn (step_name s) ctx y :: map Ev (fst (step_fn s ctx y)), Err e)) /\
  (forall (mws : list Middleware) (term : Ctx -> RM unit) (e : string) (ctx c : Ctx),
     Forall (fun mw => forall c, passes_error (mw c)) mws ->
     layer_ctx mws ctx (length mws) = Some c ->
     snd (term c) = Err e ->
     forall k c', k <= length mws -> layer_ctx mws ctx k = Some c' ->
     snd (invoke k (skipn k mws) term c') = Err e) /\
  (forall (mws : list Middleware) (n d : string) (pre post : list WorkflowStep)
          (s : WorkflowStep) (ctx c : Ctx) (x y : Payload) (l : list Obs) (e : string),
     Forall (fun mw => forall c, passes_error (mw c)) mws ->
     layer_ctx mws ctx (length mws) = Some c ->
     runSteps pre c x = (l, Ok y) ->
     snd (step_fn s c y) = Err e ->
     let r := invoke 0 mws (runJob (mkWorkflowJob n d (pre ++ s :: post)) x) ctx in
     snd r = Err e /\ step_events (fst r) = step_events l ++ [StepIn (step_name s) c y]) /\
  (forall (ctx : Ctx) (next : Ctx -> RM unit) (e : string),
     snd (next ctx) = Err e ->
     run_prog (Example.mw2 ctx) next = (Ev "2nd-middleware" :: fst (next ctx), Err e)) /\
  Forall (fun mw => forall c, passes_error (mw c))
    [Example.mw1; Example.mw2; Example.svcMw].
Proof.
  split; [|split; [|split; [|split]]].
  - exact runSteps_stops_at_error.
  - intros mws term e ctx c Hall Hl Ht k c' Hk Hk'.
    rewrite (layer_ctx_skipn mws ctx c' k Hk') in Hl.
    exact (proj1 (invoke_error_at_terminal e (skipn k mws) term
                    (Forall_skipn_mw _ k mws Hall) k c' c Hl Ht)).
  - intros mws n d pre post s ctx c x y l e Hall Hl Hpre Hs r.
    assert (Hj : runJob (mkWorkflowJob n d (pre ++ s :: post)) x c =
                 (l ++ StepIn (step_name s) c y :: map Ev (fst (step_fn s c y)), Err e)).
    { unfold runJob. cbn [Steps]. rewrite (runSteps_stops_at_error pre post s c x y l e Hpre Hs).
      reflexivity. }
    destruct (invoke_error_at_terminal e mws _ Hall 0 ctx c Hl
                (f_equal snd Hj)) as [H1 H2].
    split; [exact H1|]. unfold r. rewrite H2, Hj. cbn [fst].
    rewrite step_events_app. simpl. rewrite step_events_map_Ev. reflexivity.
  - intros ctx next e H. simpl. destruct (next ctx) as [l r]. simpl in H. subst r.
    simpl. rewrite app_nil_r. reflexivity.
  - exact example_middlewares_pass_error.
Qed.

Lemma step_error_stops_and_propagates_witness :
  layer_ctx [Example.mw1; Example.mw2] [] 2 = Some [("testkey", IString "testvalue")] /\
  snd (step_fn (SetName needsSvcKey "check") [("testkey", IString "testvalue")]
         (PUserCreate Example.testEvent)) = Err "svckey missing" /\
  let r := invoke 0 [Example.mw1; Example.mw2]
             (runJob (mkWorkflowJob "j" "" ([] ++ SetName needsSvcKey "check" ::
                                            [SetName (FnStepOne Example.stepTwo) "after"]))
                (PUserCreate Example.testEvent)) [] in
  snd r = Err "svckey missing" /\
  step_events (fst r) = step_events [] ++
    [StepIn "check" [("testkey", IString "testvalue")] (PUserCreate Example.testEvent)].
Proof.
  assert (Hf : Forall (fun mw => forall c, passes_error (mw c)) [Example.mw1; Example.mw2])
    by (repeat constructor; intros; constructor; intro e; constructor).
  assert (Hl : layer_ctx [Example.mw1; Example.mw2] [] 2 =
               Some [("testkey", IString "testvalue")]) by reflexivity.
  assert (Hs : snd (step_fn (SetName needsSvcKey "check") [("testkey", IString "testvalue")]
                      (PUserCreate Example.testEvent)) = Err "svckey missing")
    by reflexivity.
  split; [exact Hl|]. split; [exact Hs|].
  exact (proj1 (proj2 (proj2 step_error_stops_and_propagates))
           [Example.mw1; Example.mw2] "j" "" [] [SetName (FnStepOne Example.stepTwo) "after"]
           (SetName needsSvcKey "check") []
           [("testkey", IString "testvalue")] (PUserCreate Example.testEvent)
           (PUserCreate Example.testEvent) [] "svckey missing" Hf Hl eq_refl Hs).
Defined.

Lemma example_runs_visible (x : Payload) :
  forall r, In r (dispatch Example.w Example.eventKey x) ->
  Forall example_visible (fst r).
Proof.
  intros r Hr. destruct x as [[un uid d]|[msg]]; simpl in Hr;
  destruct Hr as [<-|[]]; simpl;
  repeat (apply Forall_cons; [simpl; try split; intros; first [reflexivity|lia]|]);
  apply Forall_nil.
Qed.

Lemma runs_of_one_service_filtered (gm : list Middleware) (A : Service) (n : string)
  (l : list (string * WorkflowJob)) (x : Payload) :
  svc_name A = n ->
  filter (fun p => negb (String.eqb (fst p) n))
    (map (fun m => (svc_name (fst m),
                    invoke 0 (gm ++ svc_mws (fst m)) (runJob (snd m) x) []))
       (map (fun kj => (A, snd kj)) l)) = [].
Proof.
  intros <-. induction l as [|kj l IH]; [reflexivity|].
  simpl. rewrite String.eqb_refl. exact IH.
Qed.

Lemma dispatch_isolated (gm : list Middleware) (pre post : list Service)
  (A A' : Service) (key : string) (x : Payload) :
  svc_name A' = svc_name A ->
  runs_not_through (svc_name A) (dispatch_named (mkWorker gm (pre ++ A :: post)) key x) =
  runs_not_through (svc_name A) (dispatch_named (mkWorker gm (pre ++ A' :: post)) key x).
Proof.
  intro Hn. unfold runs_not_through, dispatch_named, matches, run_match.
  cbn [w_mws w_services]. rewrite !flat_map_app. cbn [flat_map].
  rewrite !map_app, !filter_app.
  rewrite (runs_of_one_service_filtered gm A (svc_name A) _ x eq_refl).
  rewrite (runs_of_one_service_filtered gm A' (svc_name A) _ x Hn).
  reflexivity.
Qed.

Lemma runSteps_trace_ctx (steps : list WorkflowStep) (ctx : Ctx) (x : Payload) :
  Forall (fun o => match o with
                   | StepIn _ c _ => c = ctx
                   | Enter _ _ => False
                   | _ => True
                   end) (fst (runSteps steps ctx x)).
Proof.
  revert x. induction steps as [|s rest IH]; intro x; simpl; [constructor|].
  assert (Hev : forall l : list string,
            Forall (fun o => match o with
                             | StepIn _ c _ => c = ctx
                             | Enter _ _ => False
                             | _ => True
                             end) (map Ev l))
    by (intro l; apply Forall_forall; intros o Ho; apply in_map_iff in Ho as [s' [<- _]];
        exact I).
  destruct (step_fn s ctx x) as [l [y|e|m]]; simpl.
  - specialize (IH y). destruct (runSteps rest ctx y) as [l2 r]. simpl in *.
    constructor; [reflexivity|]. apply Forall_app. split; [apply Hev|].
    constructor; [exact I|exact IH].
  - constructor; [reflexivity|]. rewrite ?app_nil_r. apply Hev.
  - constructor; [reflexivity|]. rewrite ?app_nil_r. apply Hev.
Qed.

Lemma run_prog_Forall (P : Ctx -> Prop) (Q : Obs -> Prop) (p : MwProg)
  (next : Ctx -> RM unit) :
  next_ctx_all P p ->
  (forall c, P c -> Forall Q (fst (next c))) ->
  (forall s, Q (Ev s)) ->
  Forall Q (fst (run_prog p next)).
Proof.
  intros H Hn HQ. induction H as [s k _ IH|c k Hc _ IH|e]; simpl.
  - destruct (run_prog k next) as [l r]. simpl in *. constructor; [apply HQ|exact IH].
  - specialize (Hn c Hc). destruct (next c) as [l [u|e|m]]; simpl in Hn.
    + specialize (IH None). destruct (run_prog (k None) next) as [l2 r]. simpl in *.
      apply Forall_app. split; assumption.
    + specialize (IH (Some e)). destruct (run_prog (k (Some e)) next) as [l2 r].
      simpl in *. apply Forall_app. split; assumption.
    + exact Hn.
  - destruct e; constructor.
Qed.

Lemma next_ctx_all_true (p : MwProg) : next_ctx_all (fun _ => True) p.
Proof. induction p; constructor; auto. Qed.

Lemma invoke_fst_nil (i : nat) (term : Ctx -> RM unit) (ctx : Ctx) :
  fst (invoke i [] term ctx) = TermRun :: fst (term ctx).
Proof. simpl. destruct (term ctx). reflexivity. Qed.

Lemma invoke_fst_cons (i : nat) (mw : Middleware) (rest : list Middleware)
  (term : Ctx -> RM unit) (ctx : Ctx) :
  fst (invoke i (mw :: rest) term ctx) =
  Enter i ctx :: fst (run_prog (mw ctx) (invoke (S i) rest term)).
Proof. simpl. destruct (run_prog (mw ctx) (invoke (S i) rest term)). reflexivity. Qed.

Lemma runJob_fst (j : WorkflowJob) (x : Payload) (ctx : Ctx) :
  fst (runJob j x ctx) = fst (runSteps (Steps j) ctx x).
Proof.
  unfold runJob. simpl. destruct (runSteps (Steps j) ctx x) as [l [y|e|m]]; simpl;
  rewrite ?app_nil_r; reflexivity.
Qed.

Section Visibility.

Variables (k : string) (v : iface) (n : nat) (j : WorkflowJob) (x : Payload).

Lemma visible_below (post : list Middleware) :
  Forall (keeps_entry k) post ->
  forall i ctx, Value ctx k = Some v ->
  Forall (sees_entry n k v) (fst (invoke i post (runJob j x) ctx)).
Proof.
  intro Hall. induction Hall as [|mw rest Hmw _ IH]; intros i ctx Hv.
  - rewrite invoke_fst_nil. constructor; [exact I|].
    rewrite runJob_fst. eapply Forall_impl; [|exact (runSteps_trace_ctx (Steps j) ctx x)].
    intros [s|i' c| |s c y|s y] Ho; simpl in *; try exact I; try contradiction.
    subst. exact Hv.
  - rewrite invoke_fst_cons. constructor; [intros _; exact Hv|].
    apply (run_prog_Forall (fun c => Value c k = Value ctx k)); [apply Hmw| |intros; exact I].
    intros c Hc. apply IH. rewrite Hc. exact Hv.
Qed.

End Visibility.

Lemma visible_downstream (k : string) (v : iface) (mw : Middleware)
  (post : list Middleware) (j : WorkflowJob) (x : Payload) :
  adds_entry k v mw -> Forall (keeps_entry k) post ->
  forall pre i ctx,
  Forall (sees_entry (i + length pre) k v)
    (fst (invoke i (pre ++ mw :: post) (runJob j x) ctx)).
Proof.
  intros Hmw Hpost pre. induction pre as [|p pre IH]; intros i ctx; simpl app.
  - rewrite invoke_fst_cons. constructor; [simpl; intro; lia|].
    apply (run_prog_Forall (fun c => Value c k = Some v)); [apply Hmw| |intros; exact I].
    intros c Hc. rewrite Nat.add_0_r. apply visible_below; assumption.
  - rewrite invoke_fst_cons. constructor; [simpl; intro; lia|].
    apply (run_prog_Forall (fun _ => True)); [apply next_ctx_all_true| |intros; exact I].
    intros c _. cbn [length]. rewrite Nat.add_succ_r. exact (IH (S i) c).
Qed.

Lemma example_adds_and_keeps :
  adds_entry "testkey" (IString "testvalue") Example.mw1 /\
  keeps_entry "testkey" Example.mw2 /\
  keeps_entry "testkey" Example.svcMw /\
  adds_entry "svckey" (IString "svcvalue") Example.svcMw.
Proof.
  repeat split; intro ctx; repeat (constructor || intro).
Qed.

(** C5: a value a middleware adds to the context is visible to everything
    downstream of it: in any chain [pre ++ mw :: post] whose middleware [mw]
    adds [k = v], and whose later middlewares derive the context they pass on
    from their own without binding [k] again, every middleware after [mw] and
    every step of the job sees [k = v], whatever the caller's context, the job
    and its payload.  In the example, the first process-wide middleware adds
    [testkey], the service middleware adds [svckey] and the others keep
    [testkey]; in every run of the example's event, whatever the payload, both
    entries are visible to every step and [testkey] to every middleware after
    the first.  Runs dispatched through other services are the same whatever
    the middlewares (and bindings) of a service [A]: nothing added by [A]'s
    middlewares reaches them. *)
Theorem context_visibility_and_service_isolation :
  (forall (pre : list Middleware) (mw : Middleware) (post : list Middleware)
          (k : string) (v : iface) (j : WorkflowJob) (x : Payload) (ctx0 : Ctx),
     adds_entry k v mw -> Forall (keeps_entry k) post ->
     Forall (sees_entry (length pre) k v)
       (fst (invoke 0 (pre ++ mw :: post) (runJob j x) ctx0))) /\
  (adds_entry "testkey" (IString "testvalue") Example.mw1 /\
   keeps_entry "testkey" Example.mw2 /\
   keeps_entry "testkey" Example.svcMw /\
   adds_entry "svckey" (IString "svcvalue") Example.svcMw) /\
  (forall (x : Payload) (r : RM unit),
     In r (dispatch Example.w Example.eventKey x) -> Forall example_visible (fst r)) /\
  (forall (gm : list Middleware) (pre post : list Service) (A A' : Service)
          (key : string) (x : Payload),
     svc_name A' = svc_name A ->
     runs_not_through (svc_name A) (dispatch_named (mkWorker gm (pre ++ A :: post)) key x) =
     runs_not_through (svc_name A) (dispatch_named (mkWorker gm (pre ++ A' :: post)) key x)).
Proof.
  split; [|split; [|split]].
  - intros pre mw post k v j x ctx0 Hmw Hpost.
    exact (visible_downstream k v mw post j x Hmw Hpost pre 0 ctx0).
  - exact example_adds_and_keeps.
  - exact example_runs_visible.
  - exact dispatch_isolated.
Qed.

Lemma context_visibility_and_service_isolation_witness :
  (adds_entry "testkey" (IString "testvalue") Example.mw1 /\
   Forall (keeps_entry "testkey") [Example.mw2; Example.svcMw] /\
   Forall (sees_entry (length (@nil Middleware)) "testkey" (IString "testvalue"))
     (fst (invoke 0 ([] ++ Example.mw1 :: [Example.mw2; Example.svcMw])
             (runJob Example.postUserUpdate (PUserCreate Example.testEvent)) []))) /\
  (In (hd (ret tt) Example.pushed) Example.pushed /\
   Forall example_visible (fst (hd (ret tt) Example.pushed))) /\
  (svc_name svcA' = svc_name svcA /\
   runs_not_through (svc_name svcA)
     (dispatch_named (mkWorker [Example.mw1] ([] ++ svcA :: [svcB])) Example.eventKey
        (PUserCreate Example.testEvent)) =
   runs_not_through (svc_name svcA)
     (dispatch_named (mkWorker [Example.mw1] ([] ++ svcA' :: [svcB])) Example.eventKey
        (PUserCreate Example.testEvent))).
Proof.
  destruct (proj1 (proj2 context_visibility_and_service_isolation))
    as [Ha [Hk2 [Hks _]]].
  assert (Hk : Forall (keeps_entry "testkey") [Example.mw2; Example.svcMw])
    by (repeat constructor; assumption).
  assert (Hin : In (hd (ret tt) Example.pushed) Example.pushed) by (left; reflexivity).
  assert (Hn : svc_name svcA' = svc_name svcA) by reflexivity.
  split; [|split]; split; [exact Ha| |exact Hin| |exact Hn|].
  - split; [exact Hk|].
    exact (proj1 context_visibility_and_service_isolation [] Example.mw1
             [Example.mw2; Example.svcMw] "testkey" (IString "testvalue")
             Example.postUserUpdate (PUserCreate Example.testEvent) [] Ha Hk).
  - exact (proj1 (proj2 (proj2 context_visibility_and_service_isolation)) _ _ Hin).
  - exact (proj2 (proj2 (proj2 context_visibility_and_service_isolation))
             [Example.mw1] [] [svcB] svcA svcA' Example.eventKey
             (PUserCreate Example.testEvent) Hn).
Defined.

Lemma dispatch_two_services (gm : list Middleware) (A B : Service)
  (jA jB : WorkflowJob) (key : string) (x : Payload) :
  filter (fun kj => String.eqb (fst kj) key) (svc_ons A) = [(key, jA)] ->
  filter (fun kj => String.eqb (fst kj) key) (svc_ons B) = [(key, jB)] ->
  dispatch_named (mkWorker gm [A; B]) key x =
  [(svc_name A, invoke 0 (gm ++ svc_mws A) (runJob jA x) []);
   (svc_name B, invoke 0 (gm ++ svc_mws B) (runJob jB x) [])].
Proof.
  intros HA HB. unfold dispatch_named, matches, run_match. cbn [w_mws w_services flat_map].
  rewrite HA, HB. reflexivity.
Qed.

(** C6: when two services are both bound to the pushed key, the single push
    starts one run per (service, job) pair, each invoking its own composed
    chain on a fresh, empty context; the run through the second service is
    the same whatever the job of the first one does, a failing one
    included. *)
Theorem two_services_independent_runs (gm : list Middleware) (A A' B : Service)
  (jA jA' jB : WorkflowJob) (key : string) (x : Payload)
  (HA : filter (fun kj => String.eqb (fst kj) key) (svc_ons A) = [(key, jA)])
  (HA' : filter (fun kj => String.eqb (fst kj) key) (svc_ons A') = [(key, jA')])
  (HB : filter (fun kj => String.eqb (fst kj) key) (svc_ons B) = [(key, jB)]) :
  dispatch_named (mkWorker gm [A; B]) key x =
  [(svc_name A, invoke 0 (gm ++ svc_mws A) (runJob jA x) []);
   (svc_name B, invoke 0 (gm ++ svc_mws B) (runJob jB x) [])] /\
  nth 1 (dispatch_named (mkWorker gm [A; B]) key x) ("", ret tt) =
  nth 1 (dispatch_named (mkWorker gm [A'; B]) key x) ("", ret tt).
Proof.
  split.
  - exact (dispatch_two_services gm A B jA jB key x HA HB).
  - rewrite (dispatch_two_services gm A B jA jB key x HA HB).
    rewrite (dispatch_two_services gm A' B jA' jB key x HA' HB).
    reflexivity.
Qed.

(** Service "a" with a job whose only step fails. *)
Definition svcAFailing : Service :=
  mkService "a" [Example.svcMw]
    [(Example.eventKey, mkWorkflowJob "fail" "" [SetName (failingStep "boom") "s"])].

Lemma two_services_independent_runs_witness :
  map (fun p => snd (snd p))
    (dispatch_named (mkWorker [Example.mw1; Example.mw2] [svcAFailing; svcB])
       Example.eventKey (PUserCreate Example.testEvent)) = [Err "boom"; Ok tt] /\
  nth 1 (dispatch_named (mkWorker [Example.mw1; Example.mw2] [svcA; svcB])
           Example.eventKey (PUserCreate Example.testEvent)) ("", ret tt) =
  nth 1 (dispatch_named (mkWorker [Example.mw1; Example.mw2] [svcAFailing; svcB])
           Example.eventKey (PUserCreate Example.testEvent)) ("", ret tt).
Proof.
  split; [vm_compute; reflexivity|].
  exact (proj2 (two_services_independent_runs [Example.mw1; Example.mw2]
                  svcA svcAFailing svcB Example.postUserUpdate
                  (mkWorkflowJob "fail" "" [SetName (failingStep "boom") "s"])
                  Example.postUserUpdate Example.eventKey (PUserCreate Example.testEvent)
                  eq_refl eq_refl eq_refl)).
Defined.

Module LifecycleFacts.
Import Lifecycle.

Lemma exec_app (p : Proc) (a b : list Action) : exec p (a ++ b) = exec (exec p a) b.
Proof. unfold exec. apply fold_left_app. Qed.

Lemma exec_exited (acts : list Action) (p : Proc) :
  p_exited p = true -> exec p acts = p.
Proof.
  revert p. induction acts as [|a acts IH]; intros p H; [reflexivity|].
  unfold exec in *. simpl. unfold step at 2. rewrite H. apply IH. exact H.
Qed.

Definition shutting (p : Proc) : Prop :=
  p_cancelled p = true /\ (p_state p = ShuttingDown \/ p_state p = Stopped).

Lemma step_shutting (p : Proc) (a : Action) :
  shutting p -> shutting (step p a) /\ p_started (step p a) = p_started p.
Proof.
  intros [Hc Hs]. unfold step, shutting.
  destruct (p_exited p) eqn:He; [auto|].
  destruct a as [| key x | i | | |].
  - destruct (p_state p) eqn:E; simpl; rewrite ?E; intuition congruence.
  - destruct (p_state p) eqn:E; simpl; rewrite ?E; intuition congruence.
  - destruct (nth_error (p_inflight p) i) as [[r n]|];
      [destruct (Nat.ltb (S n) (length (fst r)))|]; simpl; intuition congruence.
  - simpl. destruct (p_state p); intuition congruence.
  - rewrite Hc. simpl. intuition congruence.
  - destruct (p_state p) eqn:E, (p_inflight p); simpl; rewrite ?E; intuition congruence.
Qed.

Lemma exec_shutting (acts : list Action) (p : Proc) :
  shutting p -> p_started (exec p acts) = p_started p.
Proof.
  revert p. induction acts as [|a acts IH]; intros p H; [reflexivity|].
  unfold exec in *. simpl. destruct (step_shutting p a H) as [H1 H2].
  rewrite IH by exact H1. exact H2.
Qed.

Lemma signal_no_new_runs (p : Proc) (acts : list Action) :
  p_started (exec (step p ASignal) acts) = p_started p.
Proof.
  destruct (p_exited p) eqn:He.
  - unfold step. rewrite He. rewrite exec_exited by exact He. reflexivity.
  - rewrite exec_shutting.
    + unfold step. rewrite He. reflexivity.
    + unfold step, shutting. rewrite He. simpl. split; [reflexivity|].
      destruct (p_state p); auto.
Qed.

Lemma nth_error_replace_nth {A} (i : nat) (a : A) (l : list A) (y : A) :
  nth_error l i = Some y -> nth_error (replace_nth i a l) i = Some a.
Proof.
  revert l. induction i as [|i IH]; intros [|b l] H; simpl in *; try discriminate;
  [reflexivity|exact (IH l H)].
Qed.

Lemma in_replace_nth {A} (i : nat) (a x y : A) (l : list A) :
  In x l -> nth_error l i = Some y -> In x (replace_nth i a l) \/ x = y.
Proof.
  revert l. induction i as [|i IH]; intros [|b l] Hx Hy; simpl in *; try discriminate.
  - injection Hy as ->. destruct Hx as [<-|Hx]; [right; reflexivity|left; right; exact Hx].
  - destruct Hx as [<-|Hx]; [left; left; reflexivity|].
    destruct (IH l Hx Hy); [left; right; assumption|right; assumption].
Qed.

Lemma in_remove_nth {A} (i : nat) (x y : A) (l : list A) :
  In x l -> nth_error l i = Some y -> In x (remove_nth i l) \/ x = y.
Proof.
  revert l. induction i as [|i IH]; intros [|b l] Hx Hy; simpl in *; try discriminate.
  - injection Hy as ->. destruct Hx as [<-|Hx]; [right; reflexivity|left; exact Hx].
  - destruct Hx as [<-|Hx]; [left; left; reflexivity|].
    destruct (IH l Hx Hy); [left; right; assumption|right; assumption].
Qed.

Lemma ticks_complete_at (r : RM unit) (i k : nat) :
  forall (p : Proc) (n : nat),
  p_exited p = false -> nth_error (p_inflight p) i = Some (r, n) ->
  length (fst r) = S (n + k) ->
  In r (p_done (exec p (repeat (ATick i) (S k)))).
Proof.
  induction k as [|k IH]; intros p n He Hi Hl.
  - unfold exec. simpl. unfold step. rewrite He, Hi. simpl.
    rewrite Hl, Nat.add_0_r, Nat.ltb_irrefl. simpl.
    apply in_or_app. right. left. reflexivity.
  - change (exec p (repeat (ATick i) (S (S k))))
      with (exec (step p (ATick i)) (repeat (ATick i) (S k))).
    assert (Hlt : Nat.ltb (S n) (length (fst r)) = true) by (apply Nat.ltb_lt; lia).
    apply (IH _ (S n)).
    + unfold step. rewrite He, Hi, Hlt. reflexivity.
    + unfold step. rewrite He, Hi, Hlt. simpl.
      exact (nth_error_replace_nth i (r, S n) _ _ Hi).
    + lia.
Qed.

Lemma step_keeps_inflight (p : Proc) (a : Action) (r : RM unit) (n : nat) :
  In (r, n) (p_inflight p) ->
  (exists m, In (r, m) (p_inflight (step p a))) \/ In r (p_done (step p a)).
Proof.
  intro H. unfold step.
  destruct (p_exited p); [left; exists n; exact H|].
  destruct a as [| key x | i | | |].
  - destruct (p_state p); left; exists n; exact H.
  - destruct (p_state p); left; exists n; simpl; try exact H.
    apply in_or_app. left. exact H.
  - destruct (nth_error (p_inflight p) i) as [[r' n']|] eqn:Hi;
      [|left; exists n; exact H].
    destruct (Nat.ltb (S n') (length (fst r'))); simpl.
    + destruct (in_replace_nth i (r', S n') _ _ _ H Hi) as [H1|H1].
      * left. exists n. exact H1.
      * injection H1 as -> ->. left. exists (S n').
        exact (nth_error_In _ _ (nth_error_replace_nth i (r', S n') _ _ Hi)).
    + destruct (in_remove_nth i _ _ _ H Hi) as [H1|H1].
      * left. exists n. exact H1.
      * injection H1 as -> ->. right. apply in_or_app. right. left. reflexivity.
  - left. exists n. exact H.
  - destruct (p_cancelled p); left; exists n; exact H.
  - destruct (p_state p), (p_inflight p) eqn:Hl; try contradiction; left; exists n;
    rewrite ?Hl; exact H.
Qed.

End LifecycleFacts.

(** C7 (counterexample): the run started by the pushed event is in flight
    when the interrupt fires; the main loop then observes [interruptCtx.Done()]
    and returns, [main] returns and the process exits: the run is left
    unfinished and no later transition completes it. *)
Lemma shutdown_cuts_off_inflight_run :
  Lifecycle.p_inflight (Lifecycle.exec Lifecycle.init Lifecycle.before_signal) <> [] /\
  (let p := Lifecycle.exec Lifecycle.init
              (Lifecycle.before_signal ++ [Lifecycle.ASignal; Lifecycle.AMainPoll]) in
   Lifecycle.p_exited p = true /\ Lifecycle.p_done p = [] /\
   Lifecycle.p_inflight p <> [] /\
   forall acts, Lifecycle.exec p acts = p).
Proof.
  split; [vm_compute; discriminate|].
  cbv zeta. split; [vm_compute; reflexivity|].
  split; [vm_compute; reflexivity|].
  split; [vm_compute; discriminate|].
  intro acts. apply LifecycleFacts.exec_exited. vm_compute. reflexivity.
Qed.

(** C7 (amended): once the interrupt fires, no push starts a run any more;
    the signal itself leaves every run in flight in place (the runs in flight
    and those completed are the same just after it), and the worker never
    aborts a run: no transition drops a run in flight without completing it,
    and as long as the process has not exited, every run in flight at signal
    time, at any position, is driven to completion by the transitions after
    the signal; but the first iteration of [run]'s loop after the signal
    makes [run] return, and the process exits with whatever runs are still in
    flight left unfinished. *)
Theorem shutdown_no_new_runs_and_main_exit (p : Lifecycle.Proc) :
  (forall acts, Lifecycle.p_started (Lifecycle.exec (Lifecycle.step p Lifecycle.ASignal) acts)
                = Lifecycle.p_started p) /\
  (Lifecycle.p_inflight (Lifecycle.step p Lifecycle.ASignal) = Lifecycle.p_inflight p /\
   Lifecycle.p_done (Lifecycle.step p Lifecycle.ASignal) = Lifecycle.p_done p /\
   Lifecycle.p_exited (Lifecycle.step p Lifecycle.ASignal) = Lifecycle.p_exited p) /\
  (forall i r n,
     Lifecycle.p_exited p = false -> nth_error (Lifecycle.p_inflight p) i = Some (r, n) ->
     n < length (fst r) ->
     In r (Lifecycle.p_done
             (Lifecycle.exec p (repeat (Lifecycle.ATick i) (length (fst r) - n)))) /\
     In r (Lifecycle.p_done
             (Lifecycle.exec (Lifecycle.step p Lifecycle.ASignal)
                (repeat (Lifecycle.ATick i) (length (fst r) - n))))) /\
  (forall a r n,
     In (r, n) (Lifecycle.p_inflight p) ->
     (exists m, In (r, m) (Lifecycle.p_inflight (Lifecycle.step p a))) \/
     In r (Lifecycle.p_done (Lifecycle.step p a))) /\
  (Lifecycle.p_exited p = false -> Lifecycle.p_cancelled p = true ->
   Lifecycle.p_exited (Lifecycle.step p Lifecycle.AMainPoll) = true /\
   forall acts, Lifecycle.exec (Lifecycle.step p Lifecycle.AMainPoll) acts =
                Lifecycle.step p Lifecycle.AMainPoll).
Proof.
  assert (Hs : Lifecycle.p_inflight (Lifecycle.step p Lifecycle.ASignal) = Lifecycle.p_inflight p /\
               Lifecycle.p_done (Lifecycle.step p Lifecycle.ASignal) = Lifecycle.p_done p /\
               Lifecycle.p_exited (Lifecycle.step p Lifecycle.ASignal) = Lifecycle.p_exited p)
    by (unfold Lifecycle.step; destruct (Lifecycle.p_exited p) eqn:He; rewrite ?He;
        repeat split).
  split; [|split; [exact Hs|split; [|split]]].
  - exact (LifecycleFacts.signal_no_new_runs p).
  - intros i r n He Hi Hl.
    replace (length (fst r) - n) with (S (length (fst r) - n - 1)) by lia.
    destruct Hs as [Hsi [_ Hse]].
    split.
    + apply (LifecycleFacts.ticks_complete_at r i _ p n He Hi). lia.
    + apply (LifecycleFacts.ticks_complete_at r i _ _ n); [congruence|congruence|lia].
  - exact (LifecycleFacts.step_keeps_inflight p).
  - intros He Hc.
    assert (H : Lifecycle.p_exited (Lifecycle.step p Lifecycle.AMainPoll) = true)
      by (unfold Lifecycle.step; rewrite He, Hc; reflexivity).
    split; [exact H|]. intro acts. apply LifecycleFacts.exec_exited. exact H.
Qed.

Lemma shutdown_no_new_runs_and_main_exit_witness :
  Lifecycle.p_exited Lifecycle.at_signal = false /\
  nth_error (Lifecycle.p_inflight Lifecycle.at_signal) 0 =
    Some (Lifecycle.inflight_run, Lifecycle.inflight_pos) /\
  Lifecycle.inflight_pos < length (fst Lifecycle.inflight_run) /\
  In Lifecycle.inflight_run
    (Lifecycle.p_done
       (Lifecycle.exec (Lifecycle.step Lifecycle.at_signal Lifecycle.ASignal)
          (repeat (Lifecycle.ATick 0)
             (length (fst Lifecycle.inflight_run) - Lifecycle.inflight_pos)))) /\
  Lifecycle.p_exited (Lifecycle.step Lifecycle.at_signal Lifecycle.ASignal) = false /\
  Lifecycle.p_cancelled (Lifecycle.step Lifecycle.at_signal Lifecycle.ASignal) = true /\
  Lifecycle.p_exited
    (Lifecycle.step (Lifecycle.step Lifecycle.at_signal Lifecycle.ASignal)
       Lifecycle.AMainPoll) = true.
Proof.
  assert (He : Lifecycle.p_exited Lifecycle.at_signal = false) by (vm_compute; reflexivity).
  assert (Hi : nth_error (Lifecycle.p_inflight Lifecycle.at_signal) 0 =
               Some (Lifecycle.inflight_run, Lifecycle.inflight_pos))
    by (vm_compute; reflexivity).
  assert (Hl : Lifecycle.inflight_pos < length (fst Lifecycle.inflight_run))
    by (vm_compute; lia).
  assert (He' : Lifecycle.p_exited (Lifecycle.step Lifecycle.at_signal Lifecycle.ASignal) = false)
    by (vm_compute; reflexivity).
  assert (Hc : Lifecycle.p_cancelled (Lifecycle.step Lifecycle.at_signal Lifecycle.ASignal) = true)
    by (vm_compute; reflexivity).
  split; [exact He|]. split; [exact Hi|]. split; [exact Hl|].
  split; [exact (proj2 (proj1 (proj2 (proj2 (shutdown_no_new_runs_and_main_exit
                                               Lifecycle.at_signal)))
                          0 _ _ He Hi Hl))|].
  split; [exact He'|]. split; [exact Hc|].
  exact (proj1 (proj2 (proj2 (proj2 (proj2 (shutdown_no_new_runs_and_main_exit
                                            (Lifecycle.step Lifecycle.at_signal
                                               Lifecycle.ASignal)))))
                  He' Hc)).
Defined.

Module OAuthFacts.
Import OAuth.







End OAuthFacts.

Module OAuthUpsertFacts.
Import OAuth.

(** C9: every write [upsertCustomUserFromToken] issues to the user repository
    ([UpdateUser] or [CreateUser]) carries as OAuth access token and refresh
    token exactly the outputs of [Encrypt] on the token's access and refresh
    token bytes.  The two [Encrypt] calls are made when the fetched user info
    is non-[nil] and passes the restriction check, and only then (otherwise
    the outcome does not depend on the encryption service); when one of them
    fails, the call returns an error and issues no write. *)
Theorem upsert_persists_only_encrypted_tokens
  (getCustomUserInfoFromToken : Token -> error + option customUserInfo)
  (checkUserRestrictions : string -> option error)
  (Encrypt : bytes -> string -> error + bytes)
  (GetUserByEmail : string -> GetUserResult)
  (UpdateUser : string -> UpdateUserOpts -> error + UserModel)
  (CreateUser : CreateUserOpts -> error + UserModel) (tok : Token) :
  let r := upsertCustomUserFromToken getCustomUserInfoFromToken checkUserRestrictions
             Encrypt GetUserByEmail UpdateUser CreateUser tok in
  (forall w, In w (fst r) ->
     exists a rt,
       Encrypt (list_ascii_of_string (AccessToken tok)) "custom_access_token" = inr a /\
       Encrypt (list_ascii_of_string (RefreshToken tok)) "custom_refresh_token" = inr rt /\
       OAccessToken (write_oauth w) = a /\ ORefreshToken (write_oauth w) = Some rt) /\
  (forall cInfo, getCustomUserInfoFromToken tok = inr (Some cInfo) ->
     checkUserRestrictions (Email cInfo) = None ->
     (exists e, Encrypt (list_ascii_of_string (AccessToken tok)) "custom_access_token" = inl e) \/
     (exists e, Encrypt (list_ascii_of_string (RefreshToken tok)) "custom_refresh_token" = inl e) ->
     fst r = [] /\ exists e, snd r = Err e) /\
  ((forall cInfo, getCustomUserInfoFromToken tok = inr (Some cInfo) ->
      checkUserRestrictions (Email cInfo) <> None) ->
   forall Encrypt', upsertCustomUserFromToken getCustomUserInfoFromToken checkUserRestrictions
                      Encrypt' GetUserByEmail UpdateUser CreateUser tok = r).
Proof.
  cbv zeta. unfold upsertCustomUserFromToken.
  destruct (getCustomUserInfoFromToken tok) as [e|[cInfo|]].
  2: destruct (checkUserRestrictions (Email cInfo)) as [e|] eqn:Hc.
  1,2,4: split; [intros w []|];
         split; [intros cInfo' H Hc'; congruence|];
         intros _ Enc'; reflexivity.
  destruct (Encrypt (list_ascii_of_string (AccessToken tok)) "custom_access_token")
    as [e|a] eqn:Ha.
  { split; [intros w []|]. split; [intros; split; [reflexivity|eexists; reflexivity]|].
    intro Hn. exfalso. exact (Hn cInfo eq_refl Hc). }
  destruct (Encrypt (list_ascii_of_string (RefreshToken tok)) "custom_refresh_token")
    as [e|rt] eqn:Hr.
  { split; [intros w []|]. split; [intros; split; [reflexivity|eexists; reflexivity]|].
    intro Hn. exfalso. exact (Hn cInfo eq_refl Hc). }
  split; [|split].
  - intros w Hw. exists a, rt. split; [reflexivity|]. split; [reflexivity|].
    destruct (GetUserByEmail (Email cInfo)) as [user| |e].
    + destruct (UpdateUser _ _); destruct Hw as [<-|[]]; split; reflexivity.
    + destruct (CreateUser _); destruct Hw as [<-|[]]; split; reflexivity.
    + destruct Hw.
  - intros cInfo' _ _ [[e He]|[e He]]; discriminate He.
  - intro Hn. exfalso. exact (Hn cInfo eq_refl Hc).
Qed.

Lemma upsert_persists_only_encrypted_tokens_witness :
  fst (upsertCustomUserFromToken OAuthEnv.getInfo0 OAuthEnv.check0
         (fun _ _ => inl "key not loaded") OAuthEnv.found0 OAuthEnv.update0
         OAuthEnv.create0 OAuthEnv.tok0) = [] /\
  exists e, snd (upsertCustomUserFromToken OAuthEnv.getInfo0 OAuthEnv.check0
                   (fun _ _ => inl "key not loaded") OAuthEnv.found0 OAuthEnv.update0
                   OAuthEnv.create0 OAuthEnv.tok0) = Err e.
Proof.
  exact (proj1 (proj2 (upsert_persists_only_encrypted_tokens OAuthEnv.getInfo0
           OAuthEnv.check0 (fun _ _ => inl "key not loaded") OAuthEnv.found0
           OAuthEnv.update0 OAuthEnv.create0 OAuthEnv.tok0))
           OAuthEnv.info0 eq_refl eq_refl (or_introl (ex_intro _ "key not loaded" eq_refl))).
Defined.

End OAuthUpsertFacts.

(** C10: when the context holds string values under [testkey] and [svckey],
    neither type assertion of step-one panics and step-one returns its output
    for every input; in the registered chain the first process-wide middleware
    and the service middleware inject both, so the whole run, whatever the
    starting context and the [userCreateEvent] payload, neither panics nor
    fails. *)
Theorem step_one_assertions_safe :
  (forall (ctx : Ctx) (u : userCreateEvent) (a b : string),
     Value ctx "testkey" = Some (IString a) ->
     Value ctx "svckey" = Some (IString b) ->
     Example.stepOne ctx u =
     (["step-one"; a; b], Ok (mkStepOneOutput ("Username is: " ++ Username u)))) /\
  (forall (ctx0 : Ctx) (u : userCreateEvent),
     snd (invoke 0 [Example.mw1; Example.mw2; Example.svcMw]
            (runJob Example.postUserUpdate (PUserCreate u)) ctx0) = Ok tt).
Proof.
  split.
  - intros ctx u a b Ha Hb. unfold Example.stepOne. rewrite Ha, Hb. reflexivity.
  - intros ctx0 u. reflexivity.
Qed.

Lemma step_one_assertions_safe_witness :
  Value example_step_ctx "testkey" = Some (IString "testvalue") /\
  Value example_step_ctx "svckey" = Some (IString "svcvalue") /\
  Example.stepOne example_step_ctx Example.testEvent =
  (["step-one"; "testvalue"; "svcvalue"],
   Ok (mkStepOneOutput ("Username is: " ++ Username Example.testEvent))).
Proof.
  assert (Ha : Value example_step_ctx "testkey" = Some (IString "testvalue")) by reflexivity.
  assert (Hb : Value example_step_ctx "svckey" = Some (IString "svcvalue")) by reflexivity.
  split; [exact Ha|]. split; [exact Hb|].
  exact (proj1 step_one_assertions_safe _ _ _ _ Ha Hb).
Defined.

(** * Further properties of the code *)

Module OAuthExtra.
Import OAuth.

(** When the user info resolves, passes the restriction check, both tokens
    encrypt, and a user with that email exists, [upsertCustomUserFromToken]
    issues exactly one write, an [UpdateUser] of that user's [ID] with the
    info's [EmailVerified] and name and the encrypted tokens; it returns the
    updated user, or the update error prefixed "failed to update user: ". *)
Theorem upsert_existing_user_is_updated
  (gi : Token -> error + option customUserInfo) (cu : string -> option error)
  (enc : bytes -> string -> error + bytes) (gu : string -> GetUserResult)
  (uu : string -> UpdateUserOpts -> error + UserModel)
  (cr : CreateUserOpts -> error + UserModel)
  (tok : Token) (cInfo : customUserInfo) (user : UserModel) (a rt : bytes)
  (Hi : gi tok = inr (Some cInfo)) (Hc : cu (Email cInfo) = None)
  (Ha : enc (list_ascii_of_string (AccessToken tok)) "custom_access_token" = inr a)
  (Hr : enc (list_ascii_of_string (RefreshToken tok)) "custom_refresh_token" = inr rt)
  (Hg : gu (Email cInfo) = Found user) :
  let opts := mkUpdateUserOpts (Some (EmailVerified cInfo)) (Some (UName cInfo))
                (mkOAuthOpts "custom" (Sub cInfo) a (Some rt) (Some (Expiry tok))) in
  upsertCustomUserFromToken gi cu enc gu uu cr tok =
  ([WUpdateUser (ID user) opts],
   match uu (ID user) opts with
   | inl e => Err (String.append "failed to update user: " e)
   | inr u => Ok u
   end).
Proof.
  cbv zeta. unfold upsertCustomUserFromToken. rewrite Hi, Hc, Ha, Hr, Hg.
  destruct (uu _ _); reflexivity.
Qed.

Lemma upsert_existing_user_is_updated_witness :
  upsertCustomUserFromToken OAuthEnv.getInfo0 OAuthEnv.check0 OAuthEnv.enc0
    OAuthEnv.found0 OAuthEnv.update0 OAuthEnv.create0 OAuthEnv.tok0 =
  ([WUpdateUser (ID OAuthEnv.user0)
      (mkUpdateUserOpts (Some true) (Some "Alice")
         (mkOAuthOpts "custom" "sub-1" (rev (list_ascii_of_string "access"))
            (Some (rev (list_ascii_of_string "refresh"))) (Some 3600)))],
   Ok OAuthEnv.user0).
Proof.
  exact (upsert_existing_user_is_updated OAuthEnv.getInfo0 OAuthEnv.check0 OAuthEnv.enc0
           OAuthEnv.found0 OAuthEnv.update0 OAuthEnv.create0 OAuthEnv.tok0
           OAuthEnv.info0 OAuthEnv.user0 _ _ eq_refl eq_refl eq_refl eq_refl eq_refl).
Defined.

(** When no user has the email ([db.ErrNotFound]), the only write is a
    [CreateUser] with the info's email, [EmailVerified], name and the
    encrypted tokens; the result is the created user or the creation error
    prefixed "failed to create user: ". *)
Theorem upsert_missing_user_is_created
  (gi : Token -> error + option customUserInfo) (cu : string -> option error)
  (enc : bytes -> string -> error + bytes) (gu : string -> GetUserResult)
  (uu : string -> UpdateUserOpts -> error + UserModel)
  (cr : CreateUserOpts -> error + UserModel)
  (tok : Token) (cInfo : customUserInfo) (a rt : bytes)
  (Hi : gi tok = inr (Some cInfo)) (Hc : cu (Email cInfo) = None)
  (Ha : enc (list_ascii_of_string (AccessToken tok)) "custom_access_token" = inr a)
  (Hr : enc (list_ascii_of_string (RefreshToken tok)) "custom_refresh_token" = inr rt)
  (Hg : gu (Email cInfo) = ErrNotFound) :
  let opts := mkCreateUserOpts (Email cInfo) (Some (EmailVerified cInfo)) (Some (UName cInfo))
                (mkOAuthOpts "custom" (Sub cInfo) a (Some rt) (Some (Expiry tok))) in
  upsertCustomUserFromToken gi cu enc gu uu cr tok =
  ([WCreateUser opts],
   match cr opts with
   | inl e => Err (String.append "failed to create user: " e)
   | inr u => Ok u
   end).
Proof.
  cbv zeta. unfold upsertCustomUserFromToken. rewrite Hi, Hc, Ha, Hr, Hg.
  destruct (cr _); reflexivity.
Qed.

Lemma upsert_missing_user_is_created_witness :
  upsertCustomUserFromToken OAuthEnv.getInfo0 OAuthEnv.check0 OAuthEnv.enc0
    OAuthEnv.notFound0 OAuthEnv.update0 OAuthEnv.create0 OAuthEnv.tok0 =
  ([WCreateUser
      (mkCreateUserOpts "a@example.com" (Some true) (Some "Alice")
         (mkOAuthOpts "custom" "sub-1" (rev (list_ascii_of_string "access"))
            (Some (rev (list_ascii_of_string "refresh"))) (Some 3600)))],
   Ok OAuthEnv.user0).
Proof.
  exact (upsert_missing_user_is_created OAuthEnv.getInfo0 OAuthEnv.check0 OAuthEnv.enc0
           OAuthEnv.notFound0 OAuthEnv.update0 OAuthEnv.create0 OAuthEnv.tok0
           OAuthEnv.info0 _ _ eq_refl eq_refl eq_refl eq_refl eq_refl).
Defined.

(** Any other [GetUserByEmail] error leaves the repository untouched and is
    returned prefixed "failed to get user: ". *)
Theorem upsert_lookup_error_no_write
  (gi : Token -> error + option customUserInfo) (cu : string -> option error)
  (enc : bytes -> string -> error + bytes) (gu : string -> GetUserResult)
  (uu : string -> UpdateUserOpts -> error + UserModel)
  (cr : CreateUserOpts -> error + UserModel)
  (tok : Token) (cInfo : customUserInfo) (a rt : bytes) (e : error)
  (Hi : gi tok = inr (Some cInfo)) (Hc : cu (Email cInfo) = None)
  (Ha : enc (list_ascii_of_string (AccessToken tok)) "custom_access_token" = inr a)
  (Hr : enc (list_ascii_of_string (RefreshToken tok)) "custom_refresh_token" = inr rt)
  (Hg : gu (Email cInfo) = GetErr e) :
  upsertCustomUserFromToken gi cu enc gu uu cr tok =
  ([], Err (String.append "failed to get user: " e)).
Proof.
  unfold upsertCustomUserFromToken. rewrite Hi, Hc, Ha, Hr, Hg. reflexivity.
Qed.

Lemma upsert_lookup_error_no_write_witness :
  upsertCustomUserFromToken OAuthEnv.getInfo0 OAuthEnv.check0 OAuthEnv.enc0
    OAuthEnv.getErr0 OAuthEnv.update0 OAuthEnv.create0 OAuthEnv.tok0 =
  ([], Err "failed to get user: connection refused").
Proof.
  exact (upsert_lookup_error_no_write OAuthEnv.getInfo0 OAuthEnv.check0 OAuthEnv.enc0
           OAuthEnv.getErr0 OAuthEnv.update0 OAuthEnv.create0 OAuthEnv.tok0
           OAuthEnv.info0 _ _ "connection refused" eq_refl eq_refl eq_refl eq_refl eq_refl).
Defined.

(** A failure to fetch the user info, or a failed restriction check on its
    email, is returned as it is, with no write, whatever the encryption
    service and the repository would do. *)
Theorem upsert_info_or_restriction_error_unchanged
  (gi : Token -> error + option customUserInfo) (cu : string -> option error)
  (enc : bytes -> string -> error + bytes) (gu : string -> GetUserResult)
  (uu : string -> UpdateUserOpts -> error + UserModel)
  (cr : CreateUserOpts -> error + UserModel) (tok : Token) (e : error) :
  (gi tok = inl e \/ exists cInfo, gi tok = inr (Some cInfo) /\ cu (Email cInfo) = Some e) ->
  upsertCustomUserFromToken gi cu enc gu uu cr tok = ([], Err e).
Proof.
  unfold upsertCustomUserFromToken. intros [H|[cInfo [H1 H2]]].
  - rewrite H. reflexivity.
  - rewrite H1, H2. reflexivity.
Qed.

Lemma upsert_info_or_restriction_error_unchanged_witness :
  upsertCustomUserFromToken OAuthEnv.getInfo0 (fun _ => Some "not in restricted domain")
    OAuthEnv.enc0 OAuthEnv.found0 OAuthEnv.update0 OAuthEnv.create0 OAuthEnv.tok0 =
  ([], Err "not in restricted domain").
Proof.
  apply upsert_info_or_restriction_error_unchanged.
  right. exists OAuthEnv.info0. split; reflexivity.
Defined.

(** Every write of [upsertCustomUserFromToken] records the provider
    "custom", the [sub] of the fetched user info as provider user id, and the
    token's expiry. *)
Theorem upsert_writes_provider_fields
  (gi : Token -> error + option customUserInfo) (cu : string -> option error)
  (enc : bytes -> string -> error + bytes) (gu : string -> GetUserResult)
  (uu : string -> UpdateUserOpts -> error + UserModel)
  (cr : CreateUserOpts -> error + UserModel) (tok : Token) :
  forall w, In w (fst (upsertCustomUserFromToken gi cu enc gu uu cr tok)) ->
  exists cInfo, gi tok = inr (Some cInfo) /\
    Provider (write_oauth w) = "custom" /\
    ProviderUserId (write_oauth w) = Sub cInfo /\
    ExpiresAt (write_oauth w) = Some (Expiry tok).
Proof.
  intros w Hw. unfold upsertCustomUserFromToken in Hw.
  destruct (gi tok) as [e|[cInfo|]]; [destruct Hw| |destruct Hw]. exists cInfo. split; [reflexivity|].
  destruct (cu (Email cInfo)); [destruct Hw|].
  destruct (enc _ "custom_access_token"); [destruct Hw|].
  destruct (enc _ "custom_refresh_token"); [destruct Hw|].
  destruct (gu (Email cInfo)) as [user| |e].
  - destruct (uu _ _); destruct Hw as [<-|[]]; repeat split.
  - destruct (cr _); destruct Hw as [<-|[]]; repeat split.
  - destruct Hw.
Qed.


Lemma upsert_writes_provider_fields_witness :
  let w0 := WCreateUser
              (mkCreateUserOpts "a@example.com" (Some true) (Some "Alice")
                 (mkOAuthOpts "custom" "sub-1" (rev (list_ascii_of_string "access"))
                    (Some (rev (list_ascii_of_string "refresh"))) (Some 3600))) in
  In w0 (fst (upsertCustomUserFromToken OAuthEnv.getInfo0 OAuthEnv.check0 OAuthEnv.enc0
                OAuthEnv.notFound0 OAuthEnv.update0 OAuthEnv.create0 OAuthEnv.tok0)) /\
  exists cInfo, OAuthEnv.getInfo0 OAuthEnv.tok0 = inr (Some cInfo) /\
    Provider (write_oauth w0) = "custom" /\
    ProviderUserId (write_oauth w0) = Sub cInfo /\
    ExpiresAt (write_oauth w0) = Some (Expiry OAuthEnv.tok0).
Proof.
  cbv zeta. split.
  - vm_compute. left. reflexivity.
  - apply (upsert_writes_provider_fields OAuthEnv.getInfo0 OAuthEnv.check0 OAuthEnv.enc0
             OAuthEnv.notFound0 OAuthEnv.update0 OAuthEnv.create0 OAuthEnv.tok0).
    vm_compute. left. reflexivity.
Defined.

End OAuthExtra.

Module OAuthHandlerExtra.
Import OAuth.

Section WithCollaborators.
Variable code : string.
Variable Exchange : string -> error + Token.
Variable Valid : Token -> bool.
Variable IsNotInRestrictedDomain : error -> bool.
Variable SaveAuthenticated : UserModel -> option error.
Variable ServerURL : string.
Variable RedirectResult : Type.
Variable GetRedirectWithError : option error -> string -> RedirectResult.
Variable gi : Token -> error + option customUserInfo.
Variable cu : string -> option error.
Variable enc : bytes -> string -> error + bytes.
Variable gu : string -> GetUserResult.
Variable uu : string -> UpdateUserOpts -> error + UserModel.
Variable cr : CreateUserOpts -> error + UserModel.

Local Abbreviation callback :=
  (OAuthCallback.callback code Exchange Valid IsNotInRestrictedDomain
     SaveAuthenticated ServerURL RedirectResult GetRedirectWithError gi cu enc gu uu cr).

(** A failed OAuth state check (an error, or a state that is not valid)
    redirects with the validation error and the cookie hint, whatever the
    token exchange, the user store and the session would do. *)
Theorem callback_invalid_state_redirects (isValid : bool) (err : option error) :
  err <> None \/ isValid = false ->
  callback (isValid, err) =
  Ok (None, FromRedirect (GetRedirectWithError err
     "Could not log in. Please try again and make sure cookies are enabled.")).
Proof.
  intro H. unfold OAuthCallback.callback, UserUpdateCustomOauthCallback.
  destruct err as [e|]; [reflexivity|].
  destruct H as [H|H]; [congruence|]. subst isValid. reflexivity.
Qed.

(** With a valid state, a failed code exchange redirects with its error and
    "Forbidden"; an exchanged token that is not valid redirects with the
    error "invalid token" and "Forbidden"; in both cases the user store and
    the session are not consulted. *)
Theorem callback_exchange_failures_forbidden :
  (forall e, Exchange code = inl e ->
     callback (true, None) =
     Ok (None, FromRedirect (GetRedirectWithError (Some e) "Forbidden"))) /\
  (forall tok, Exchange code = inr tok -> Valid tok = false ->
     callback (true, None) =
     Ok (None, FromRedirect (GetRedirectWithError (Some "invalid token") "Forbidden"))).
Proof.
  unfold OAuthCallback.callback, UserUpdateCustomOauthCallback. simpl. split.
  - intros e H. rewrite H. reflexivity.
  - intros tok H1 H2. rewrite H1, H2. reflexivity.
Qed.

(** With a valid state and token, an upsert error [e] redirects with [e] and
    "Email is not in the restricted domain group." when [e] is the
    restricted-domain error, "Internal error." otherwise; a failed session
    save redirects with its error and "Internal error.". *)
Theorem callback_upsert_and_session_errors (tok : Token) :
  Exchange code = inr tok -> Valid tok = true ->
  (forall e, snd (upsertCustomUserFromToken gi cu enc gu uu cr tok) = Err e ->
     callback (true, None) =
     Ok (None, FromRedirect (GetRedirectWithError (Some e)
        (if IsNotInRestrictedDomain e then "Email is not in the restricted domain group."
         else "Internal error.")))) /\
  (forall user e, snd (upsertCustomUserFromToken gi cu enc gu uu cr tok) = Ok user ->
     SaveAuthenticated user = Some e ->
     callback (true, None) =
     Ok (None, FromRedirect (GetRedirectWithError (Some e) "Internal error."))).
Proof.
  intros Hx Hv. unfold OAuthCallback.callback, UserUpdateCustomOauthCallback. simpl.
  rewrite Hx, Hv. simpl. split.
  - intros e H. rewrite H. destruct (IsNotInRestrictedDomain e); reflexivity.
  - intros user e H1 H2. rewrite H1, H2. reflexivity.
Qed.

(** The callback answers with the 302 to [ServerURL] and a nil error exactly
    when the state is valid with no error, the code exchanges for a valid
    token, the upsert returns a user and the session is saved. *)
Theorem callback_success_iff_all_steps_succeed (st : bool * option error) :
  callback st = Ok (Some (mkResp302 ServerURL), NilErr) <->
  st = (true, None) /\
  exists tok user, Exchange code = inr tok /\ Valid tok = true /\
    snd (upsertCustomUserFromToken gi cu enc gu uu cr tok) = Ok user /\
    SaveAuthenticated user = None.
Proof.
  unfold OAuthCallback.callback, UserUpdateCustomOauthCallback. split.
  - destruct st as [[|] [e|]]; simpl; try discriminate.
    destruct (Exchange code) as [e|tok]; try discriminate.
    destruct (Valid tok) eqn:HV; simpl; try discriminate.
    destruct (snd (upsertCustomUserFromToken gi cu enc gu uu cr tok)) as [user|e|p] eqn:HU.
    + destruct (SaveAuthenticated user) eqn:HS; [discriminate|].
      intros _. split; [reflexivity|]. exists tok, user. auto.
    + destruct (IsNotInRestrictedDomain e); discriminate.
    + discriminate.
  - intros [-> [tok [user [HE [HV [HU HS]]]]]]. simpl.
    rewrite HE, HV. simpl. rewrite HU, HS. reflexivity.
Qed.

End WithCollaborators.

Lemma callback_invalid_state_redirects_witness :
  OAuthCallback.callback "c" OAuthEnv.exchange0 OAuthEnv.valid0 OAuthEnv.restricted0 OAuthEnv.save0
    "https://app" string OAuthEnv.redirect0 OAuthEnv.getInfo0 OAuthEnv.check0
    OAuthEnv.enc0 OAuthEnv.found0 OAuthEnv.update0 OAuthEnv.create0 (false, None) =
  Ok (None, FromRedirect "Could not log in. Please try again and make sure cookies are enabled.").
Proof.
  exact (callback_invalid_state_redirects "c" OAuthEnv.exchange0 OAuthEnv.valid0
           OAuthEnv.restricted0 OAuthEnv.save0 "https://app" string OAuthEnv.redirect0
           OAuthEnv.getInfo0 OAuthEnv.check0 OAuthEnv.enc0 OAuthEnv.found0
           OAuthEnv.update0 OAuthEnv.create0 false None (or_intror eq_refl)).
Defined.

Lemma callback_exchange_failures_forbidden_witness :
  OAuthCallback.callback "c" (fun _ => inl "bad code") OAuthEnv.valid0 OAuthEnv.restricted0
    OAuthEnv.save0 "https://app" string OAuthEnv.redirect0 OAuthEnv.getInfo0
    OAuthEnv.check0 OAuthEnv.enc0 OAuthEnv.found0 OAuthEnv.update0 OAuthEnv.create0
    (true, None) = Ok (None, FromRedirect "Forbidden") /\
  OAuthCallback.callback "c" OAuthEnv.exchange0 (fun _ => false) OAuthEnv.restricted0
    OAuthEnv.save0 "https://app" string OAuthEnv.redirect0 OAuthEnv.getInfo0
    OAuthEnv.check0 OAuthEnv.enc0 OAuthEnv.found0 OAuthEnv.update0 OAuthEnv.create0
    (true, None) = Ok (None, FromRedirect "Forbidden").
Proof.
  split.
  - exact (proj1 (callback_exchange_failures_forbidden "c" (fun _ => inl "bad code")
             OAuthEnv.valid0 OAuthEnv.restricted0 OAuthEnv.save0 "https://app" string
             OAuthEnv.redirect0 OAuthEnv.getInfo0 OAuthEnv.check0 OAuthEnv.enc0
             OAuthEnv.found0 OAuthEnv.update0 OAuthEnv.create0) "bad code" eq_refl).
  - exact (proj2 (callback_exchange_failures_forbidden "c" OAuthEnv.exchange0
             (fun _ => false) OAuthEnv.restricted0 OAuthEnv.save0 "https://app" string
             OAuthEnv.redirect0 OAuthEnv.getInfo0 OAuthEnv.check0 OAuthEnv.enc0
             OAuthEnv.found0 OAuthEnv.update0 OAuthEnv.create0) OAuthEnv.tok0 eq_refl eq_refl).
Defined.

Lemma callback_upsert_and_session_errors_witness :
  OAuthCallback.callback "c" OAuthEnv.exchange0 OAuthEnv.valid0 OAuthEnv.restricted0 OAuthEnv.save0
    "https://app" string OAuthEnv.redirect0 OAuthEnv.getInfo0
    (fun _ => Some "not in restricted domain") OAuthEnv.enc0 OAuthEnv.found0
    OAuthEnv.update0 OAuthEnv.create0 (true, None) =
  Ok (None, FromRedirect "Email is not in the restricted domain group.").
Proof.
  exact (proj1 (callback_upsert_and_session_errors "c" OAuthEnv.exchange0 OAuthEnv.valid0
           OAuthEnv.restricted0 OAuthEnv.save0 "https://app" string OAuthEnv.redirect0
           OAuthEnv.getInfo0 (fun _ => Some "not in restricted domain") OAuthEnv.enc0
           OAuthEnv.found0 OAuthEnv.update0 OAuthEnv.create0 OAuthEnv.tok0 eq_refl eq_refl)
           "not in restricted domain" eq_refl).
Defined.


Lemma callback_success_iff_all_steps_succeed_witness :
  OAuthCallback.callback "c" OAuthEnv.exchange0 OAuthEnv.valid0 OAuthEnv.restricted0
    OAuthEnv.save0 "https://app" string OAuthEnv.redirect0 OAuthEnv.getInfo0
    OAuthEnv.check0 OAuthEnv.enc0 OAuthEnv.found0 OAuthEnv.update0 OAuthEnv.create0
    (true, None) = Ok (Some (mkResp302 "https://app"), NilErr).
Proof.
  apply (proj2 (callback_success_iff_all_steps_succeed "c" OAuthEnv.exchange0
           OAuthEnv.valid0 OAuthEnv.restricted0 OAuthEnv.save0 "https://app" string
           OAuthEnv.redirect0 OAuthEnv.getInfo0 OAuthEnv.check0 OAuthEnv.enc0
           OAuthEnv.found0 OAuthEnv.update0 OAuthEnv.create0 (true, None))).
  split; [reflexivity|].
  exists OAuthEnv.tok0, OAuthEnv.user0.
  split; [reflexivity|]. split; [reflexivity|]. split; [vm_compute; reflexivity|].
  reflexivity.
Defined.

End OAuthHandlerExtra.

Module OAuthInfoExtra.
Import OAuth OAuthInfo.

(** [getCustomUserInfoFromToken] sends at most one request: exactly one when
    the resource URL parses, none otherwise; it is a GET of the configured
    resource URL whose only header is [Authorization: Bearer <access token>]. *)
Theorem user_info_single_bearer_request (ResourceURL : string)
  (ParseURL : string -> option error) (Body : Type) (Do : Request -> error + Body)
  (ReadAll : Body -> error + bytes) (Unmarshal : bytes -> error + option customUserInfo)
  (tok : Token) :
  let sent := fst (getCustomUserInfoFromToken ResourceURL ParseURL Body Do ReadAll Unmarshal tok) in
  sent = match ParseURL ResourceURL with
         | Some _ => []
         | None => [mkRequest "GET" ResourceURL
                      [("Authorization", String.append "Bearer " (AccessToken tok))]]
         end.
Proof.
  cbv zeta. unfold getCustomUserInfoFromToken.
  destruct (ParseURL ResourceURL); [reflexivity|].
  destruct (Do _) as [e|resp]; [reflexivity|].
  destruct (ReadAll resp) as [e|c]; [reflexivity|].
  destruct (Unmarshal c); reflexivity.
Qed.

(** Every error of [getCustomUserInfoFromToken] names the stage that failed:
    "failed creating request: " exactly when the URL does not parse (no
    request is then sent), "failed getting user info: " when [client.Do]
    fails, "failed reading response body: " when reading the body fails, and
    "failed parsing response body: " when [json.Unmarshal] fails; in each case
    the prefix is followed by that stage's own error. *)
Theorem user_info_errors_name_their_stage (ResourceURL : string)
  (ParseURL : string -> option error) (Body : Type) (Do : Request -> error + Body)
  (ReadAll : Body -> error + bytes) (Unmarshal : bytes -> error + option customUserInfo)
  (tok : Token) (e : error) :
  let req := HeaderAdd (mkRequest "GET" ResourceURL []) "Authorization"
               (String.append "Bearer " (AccessToken tok)) in
  let r := getCustomUserInfoFromToken ResourceURL ParseURL Body Do ReadAll Unmarshal tok in
  snd r = inl e ->
  (exists e0, ParseURL ResourceURL = Some e0 /\ fst r = [] /\
     e = String.append "failed creating request: " e0) \/
  (ParseURL ResourceURL = None /\ exists e0, Do req = inl e0 /\
     e = String.append "failed getting user info: " e0) \/
  (ParseURL ResourceURL = None /\ exists resp e0, Do req = inr resp /\
     ReadAll resp = inl e0 /\ e = String.append "failed reading response body: " e0) \/
  (ParseURL ResourceURL = None /\ exists resp c e0, Do req = inr resp /\
     ReadAll resp = inr c /\ Unmarshal c = inl e0 /\
     e = String.append "failed parsing response body: " e0).
Proof.
  cbv zeta. unfold getCustomUserInfoFromToken.
  destruct (ParseURL ResourceURL) as [e0|] eqn:Hp.
  { intro H. injection H as <-. left. exists e0. auto. }
  destruct (Do _) as [e0|resp] eqn:Hd.
  { intro H. injection H as <-. right. left. split; [reflexivity|]. exists e0. auto. }
  destruct (ReadAll resp) as [e0|c] eqn:Hr.
  { intro H. injection H as <-. right. right. left. split; [reflexivity|].
    exists resp, e0. auto. }
  destruct (Unmarshal c) as [e0|i] eqn:Hu.
  { intro H. injection H as <-. right. right. right. split; [reflexivity|].
    exists resp, c, e0. auto. }
  discriminate.
Qed.

Lemma user_info_errors_name_their_stage_witness :
  let req := HeaderAdd (mkRequest "GET" OAuthEnv.userInfoURL []) "Authorization"
               (String.append "Bearer " (AccessToken OAuthEnv.tok0)) in
  snd (getCustomUserInfoFromToken OAuthEnv.userInfoURL OAuthEnv.parse0 unit OAuthEnv.do0
         OAuthEnv.readEOF OAuthEnv.unmarshal0 OAuthEnv.tok0) =
    inl "failed reading response body: unexpected EOF" /\
  (OAuthEnv.parse0 OAuthEnv.userInfoURL = None /\
   exists resp e0, OAuthEnv.do0 req = inr resp /\ OAuthEnv.readEOF resp = inl e0 /\
     "failed reading response body: unexpected EOF" =
       String.append "failed reading response body: " e0).
Proof.
  cbv zeta. split; [reflexivity|].
  destruct (user_info_errors_name_their_stage OAuthEnv.userInfoURL OAuthEnv.parse0 unit
              OAuthEnv.do0 OAuthEnv.readEOF OAuthEnv.unmarshal0 OAuthEnv.tok0
              "failed reading response body: unexpected EOF" eq_refl)
    as [[e0 [Hp _]]|[[_ [e0 [Hd _]]]|[H|[_ [resp [c [e0 [_ [Hr _]]]]]]]]].
  - discriminate Hp.
  - discriminate Hd.
  - exact H.
  - discriminate Hr.
Defined.

End OAuthInfoExtra.

Module ExampleExtra.

(** Step-one panics when a context value it asserts is missing or not a
    string: without a string [testkey] it panics right after sending
    "step-one"; with a string [testkey] but no string [svckey] it panics after
    sending "step-one" and the [testkey] value; it then returns no output. *)
Theorem step_one_panics_without_string_keys (ctx : Ctx) (u : userCreateEvent) :
  ((forall s, Value ctx "testkey" <> Some (IString s)) ->
   Example.stepOne ctx u =
   (["step-one"], Panic "interface conversion: interface {} is not string")) /\
  (forall a, Value ctx "testkey" = Some (IString a) ->
   (forall s, Value ctx "svckey" <> Some (IString s)) ->
   Example.stepOne ctx u =
   (["step-one"; a], Panic "interface conversion: interface {} is not string")).
Proof.
  unfold Example.stepOne. split.
  - intro H. destruct (Value ctx "testkey") as [[s|]|] eqn:E.
    + exfalso. exact (H s eq_refl).
    + reflexivity.
    + reflexivity.
  - intros a Ha H. rewrite Ha. simpl.
    destruct (Value ctx "svckey") as [[s|]|] eqn:E.
    + exfalso. exact (H s eq_refl).
    + reflexivity.
    + reflexivity.
Qed.

Lemma step_one_panics_without_string_keys_witness :
  Example.stepOne [("testkey", IString "testvalue")] Example.testEvent =
  (["step-one"; "testvalue"], Panic "interface conversion: interface {} is not string").
Proof.
  apply (proj2 (step_one_panics_without_string_keys [("testkey", IString "testvalue")]
                  Example.testEvent) "testvalue" eq_refl).
  intros s H. discriminate H.
Defined.

(** The job run under the two process-wide middlewares alone (no service
    middleware), from a context without [svckey], panics in step-one: the
    channel receives "1st-middleware", "2nd-middleware", "step-one",
    "testvalue", the panic unwinds through both middlewares, and step-two
    never starts. *)
Theorem job_without_service_middleware_panics (ctx0 : Ctx) (u : userCreateEvent) :
  Value ctx0 "svckey" = None ->
  let r := invoke 0 [Example.mw1; Example.mw2]
             (runJob Example.postUserUpdate (PUserCreate u)) ctx0 in
  events (fst r) = ["1st-middleware"; "2nd-middleware"; "step-one"; "testvalue"] /\
  snd r = Panic "interface conversion: interface {} is not string" /\
  step_events (fst r) =
    [StepIn "step-one" (WithValue ctx0 "testkey" (IString "testvalue")) (PUserCreate u)].
Proof.
  intro H. cbv zeta. unfold runJob. simpl. unfold Example.stepOne. simpl. rewrite H. simpl. repeat split.
Qed.

Lemma job_without_service_middleware_panics_witness :
  Value [] "svckey" = None /\
  snd (invoke 0 [Example.mw1; Example.mw2]
         (runJob Example.postUserUpdate (PUserCreate Example.testEvent)) []) =
  Panic "interface conversion: interface {} is not string".
Proof.
  split; [reflexivity|].
  exact (proj1 (proj2 (job_without_service_middleware_panics [] Example.testEvent eq_refl))).
Defined.

End ExampleExtra.
